(** * PdfMarker: the bookmark tool [pdf_bookmark_tool.py]

    A shallow embedding of the functions of the tool,
    [parse_bookmark_file], [create_bookmark_tree], [add_bookmarks_to_pdf]
    and [main], the properties of its specification and further
    properties of the code.

    Python values are modelled as follows.
    - [int] is [Z] (unbounded); the conversion [int(s)] of a text refuses
      more than [int_max_str_digits] digits, as CPython does.
    - [str] is the list of the Unicode code points of the text ([char]
      is [N]); [\s], [str.strip] and [\d] are the classes [isspace] and
      [isdigit] of the Unicode database.
    - the dictionaries and lists that [create_bookmark_tree] builds and
      mutates through the aliases kept in [parents] live in a store of
      objects addressed by references ([heap], [loc]).
    - an exception is a value of [exn]; code that can raise returns a
      [result]. *)

From Stdlib Require Import ZArith NArith Lia.
From Stdlib.Strings Require Import Byte.
From stdpp Require Import base list.

Set Warnings "-register-all".
Set Warnings "-via-type-remapping,-via-type-mismatch".

Open Scope Z_scope.

(** ** Text *)

(** A character is a Unicode code point. *)
Definition char : Type := N.

Definition str : Type := list char.

(** A literal between double quotes stands for the list of its
    characters, which must be ASCII; other characters are written as
    code points. *)
Inductive str_literal : Type :=
| lit_nil
| lit_cons (c : N) (s : str_literal).

Fixpoint parse_literal (bytes : list Byte.byte) : option str_literal :=
  match bytes with
  | [] => Some lit_nil
  | b :: rest =>
      let c := Byte.to_N b in
      if (c <? 128)%N then
        match parse_literal rest with
        | Some s => Some (lit_cons c s)
        | None => None
        end
      else None
  end.

(** Values are shown as lists of code points, never as literals. *)
Definition print_literal (s : str_literal) : option (list Byte.byte) := None.

Declare Scope str_scope.
Delimit Scope str_scope with str.
String Notation str parse_literal print_literal
  (via str_literal mapping [[nil] => lit_nil, [cons] => lit_cons]) : str_scope.
Open Scope str_scope.

(** ** Exceptions and results *)

Inductive exn : Type :=
| ListIndexOutOfRange          (* IndexError: list index out of range *)
| PopFromEmptyList             (* IndexError: pop from empty list *)
| BadReference                 (* a reference read at the wrong type; see [create_bookmark_tree_errors] *)
| IntStrTooLong (digits : Z)   (* ValueError: Exceeds the limit (4300 digits) for integer string conversion: value has {digits} digits *)
| External (msg : str).        (* an exception raised by open() or by PyPDF2 *)

Inductive result (A : Type) : Type :=
| Ok (a : A)
| Raise (e : exn).
Arguments Ok {A} a.
Arguments Raise {A} e.

Definition bind {A B : Type} (m : result A) (k : A -> result B) : result B :=
  match m with
  | Ok a => k a
  | Raise e => Raise e
  end.

Notation "'let*' x := m 'in' k" := (bind m (fun x => k))
  (at level 10, x pattern, m at level 100, k at level 200).

(** ** Data model *)

(** The dictionary [{'level': .., 'title': .., 'page': ..}] that the parser
    appends to [bookmarks]. *)
Record bookmark : Type := Bookmark {
  level : Z;
  title : str;
  page : Z
}.

(** The value of a node of the returned tree: [{'title': .., 'page': ..}]
    with, possibly, a key ['children'] holding a list of nodes. *)
Inductive node : Type :=
| Node (ntitle : str) (npage : Z) (children : option (list node)).

Definition forest := list node.

(** ** The store *)

Abbreviation loc := nat.

Inductive obj : Type :=
| OList (items : list loc)                              (* a list of node dictionaries *)
| ODict (t : str) (p : Z) (children : option loc).   (* a node dictionary *)

Abbreviation heap := (list obj).

(** Allocation of a new object; its reference is the next free index. *)
Definition alloc (h : heap) (o : obj) : loc * heap := (length h, h ++ [o]).

Definition read_list (h : heap) (l : loc) : result (list loc) :=
  match h !! l with
  | Some (OList items) => Ok items
  | _ => Raise BadReference
  end.

Definition read_dict (h : heap) (d : loc) : result (str * Z * option loc) :=
  match h !! d with
  | Some (ODict t p c) => Ok (t, p, c)
  | _ => Raise BadReference
  end.

(** ** Python list operations on [parents] *)

(** [l[-1]] *)
Definition py_last {A : Type} (l : list A) : result A :=
  match last l with
  | Some x => Ok x
  | None => Raise ListIndexOutOfRange
  end.

(** [l.pop()], keeping the remaining list *)
Definition py_pop {A : Type} (l : list A) : result (list A) :=
  match l with
  | [] => Raise PopFromEmptyList
  | _ => Ok (removelast l)
  end.

(** [for _ in range(n): l.pop()] *)
Fixpoint pop_n {A : Type} (n : nat) (l : list A) : result (list A) :=
  match n with
  | O => Ok l
  | S n' => let* l' := py_pop l in pop_n n' l'
  end.

(** ** create_bookmark_tree *)

(** The loop state: the store, the stack [parents] (top last, as in the
    source) and [prev_level]. *)
Record builder : Type := Builder {
  store : heap;
  parents : list loc;
  prev_level : Z
}.

(** [root = []; parents = [root]; prev_level = 0] *)
Definition root : loc := 0%nat.
Definition builder_init : builder :=
  let '(r, h) := alloc [] (OList []) in Builder h [r] 0.

(** Lines 68-78: the adjustment of [parents] to the level of the record. *)
Definition adjust_parents (lv : Z) (st : builder) : result (heap * list loc) :=
  let h := store st in
  let ps := parents st in
  if lv >? prev_level st then
    let* top := py_last ps in
    let* items := read_list h top in
    if (0 <? Z.of_nat (length items)) then
      let* last_item := py_last items in
      let* (t, p, c) := read_dict h last_item in
      match c with
      | None =>
          let '(lc, h') := alloc h (OList []) in
          Ok (<[last_item := ODict t p (Some lc)]> h', ps ++ [lc])
      | Some lc => Ok (h, ps ++ [lc])
      end
    else Ok (h, ps)
  else if lv <? prev_level st then
    let* ps' := pop_n (Z.to_nat (prev_level st - lv)) ps in
    Ok (h, ps')
  else Ok (h, ps).

(** Lines 80-86: the append of the node to the list on top of the stack. *)
Definition append_node (b : bookmark) (h : heap) (ps : list loc) : result builder :=
  let* top := py_last ps in
  let* items := read_list h top in
  let '(d, h') := alloc h (ODict (title b) (page b) None) in
  Ok (Builder (<[top := OList (items ++ [d])]> h') ps (level b)).

(** One iteration of the loop of lines 64-86. *)
Definition step (st : builder) (b : bookmark) : result builder :=
  let* (h, ps) := adjust_parents (level b) st in
  append_node b h ps.

Fixpoint run (st : builder) (bookmarks : list bookmark) : result builder :=
  match bookmarks with
  | [] => Ok st
  | b :: rest => let* st' := step st b in run st' rest
  end.

(** The value of the object graph under a reference. The store built by
    [run] has no cycle and references grow along every path, so [fuel]
    equal to the size of the store is enough ([read_forest_inv]). *)
Fixpoint read_node (fuel : nat) (h : heap) (d : loc) : option node :=
  match fuel with
  | O => None
  | S fuel' =>
      match h !! d with
      | Some (ODict t p None) => Some (Node t p None)
      | Some (ODict t p (Some lc)) =>
          match h !! lc with
          | Some (OList items) =>
              ch ← mapM (read_node fuel' h) items; Some (Node t p (Some ch))
          | _ => None
          end
      | _ => None
      end
  end.

Definition read_forest (h : heap) (l : loc) : result forest :=
  match h !! l with
  | Some (OList items) =>
      match mapM (read_node (length h) h) items with
      | Some f => Ok f
      | None => Raise BadReference
      end
  | _ => Raise BadReference
  end.

(** [create_bookmark_tree(bookmarks)]: the loop, then [return root]. *)
Definition create_bookmark_tree (bookmarks : list bookmark) : result forest :=
  let* st := run builder_init bookmarks in
  read_forest (store st) root.

(** Pre-order traversal, the order of [add_bookmarks_recursively]. *)
Fixpoint preorder (n : node) : list (str * Z) :=
  match n with
  | Node t p c =>
      (t, p) :: match c with
                | None => []
                | Some ch => flat_map preorder ch
                end
  end.

Definition preorder_forest (f : forest) : list (str * Z) := flat_map preorder f.

(** ** Characters and strings *)

Definition in_ranges (c : char) (ranges : list (N * N)) : bool :=
  existsb (fun r => (fst r <=? c) && (c <=? snd r))%N ranges.

(** The white space of the Unicode database ([Py_UNICODE_ISSPACE]), in
    inclusive ranges of code points. *)
Definition space_ranges : list (N * N) :=
  [(0x09, 0x0d); (0x1c, 0x20); (0x85, 0x85); (0xa0, 0xa0); (0x1680, 0x1680);
   (0x2000, 0x200a); (0x2028, 0x2029); (0x202f, 0x202f); (0x205f, 0x205f);
   (0x3000, 0x3000)]%N.

(** [str.isspace] on a character: the characters that [str.strip]
    removes and that the class [\s] of a [str] pattern matches. *)
Definition isspace (c : char) : bool := in_ranges c space_ranges.

(** The decimal digits of the Unicode database (category Nd, Unicode 14
    of CPython 3.11) come in runs of ten, from the digit zero to the
    digit nine of a script; these are the zeros. *)
Definition decimal_zeros : list N :=
  [0x30; 0x660; 0x6f0; 0x7c0; 0x966; 0x9e6; 0xa66; 0xae6; 0xb66; 0xbe6;
   0xc66; 0xce6; 0xd66; 0xde6; 0xe50; 0xed0; 0xf20; 0x1040; 0x1090;
   0x17e0; 0x1810; 0x1946; 0x19d0; 0x1a80; 0x1a90; 0x1b50; 0x1bb0;
   0x1c40; 0x1c50; 0xa620; 0xa8d0; 0xa900; 0xa9d0; 0xa9f0; 0xaa50;
   0xabf0; 0xff10; 0x104a0; 0x10d30; 0x11066; 0x110f0; 0x11136; 0x111d0;
   0x112f0; 0x11450; 0x114d0; 0x11650; 0x116c0; 0x11730; 0x118e0;
   0x11950; 0x11c50; 0x11d50; 0x11da0; 0x16a60; 0x16ac0; 0x16b50;
   0x1d7ce; 0x1d7d8; 0x1d7e2; 0x1d7ec; 0x1d7f6; 0x1e140; 0x1e2f0;
   0x1e950; 0x1fbf0]%N.

(** The zero of the run of decimal digits that holds [c], if any. *)
Definition decimal_zero (c : char) : option N :=
  find (fun z => (z <=? c) && (c <? z + 10))%N decimal_zeros.

(** The class [\d] of a [str] pattern ([Py_UNICODE_ISDECIMAL]). *)
Definition isdigit (c : char) : bool :=
  match decimal_zero c with
  | Some _ => true
  | None => false
  end.

Definition newline : char := 10%N.

(** The class [.] (no DOTALL flag): any character but the newline. *)
Definition dot (c : char) : bool := negb (c =? newline)%N.

Fixpoint lstrip (s : str) : str :=
  match s with
  | c :: s' => if isspace c then lstrip s' else s
  | [] => []
  end.

Fixpoint rstrip (s : str) : str :=
  match s with
  | [] => []
  | c :: s' =>
      match rstrip s' with
      | [] => if isspace c then [] else [c]
      | r => c :: r
      end
  end.

(** [s.strip()] *)
Definition strip (s : str) : str := rstrip (lstrip s).

(** [not s] *)
Definition is_empty (s : str) : bool :=
  match s with [] => true | _ => false end.

(** [s.startswith('#')] *)
Definition startswith_hash (s : str) : bool :=
  match s with
  | c :: _ => (c =? 35)%N
  | [] => false
  end.

(** The value of a decimal digit ([Py_UNICODE_TODECIMAL]). *)
Definition digit_value (c : char) : Z :=
  match decimal_zero c with
  | Some z => Z.of_N (c - z)
  | None => 0
  end.

(** The number that a run of decimal digits writes in base ten. *)
Definition int_value (s : str) : Z :=
  fold_left (fun acc c => 10 * acc + digit_value c) s 0.

(** [sys.int_info.default_max_str_digits]: [int] refuses a text with more
    digits (CPython 3.11, and the security releases of 3.7 to 3.10). *)
Definition int_max_str_digits : Z := 4300.

(** [int(s)] on a run of decimal digits, which is what the groups 1 and
    3 of the pattern are: every character counts as a digit, leading
    zeros included. *)
Definition int (s : str) : result Z :=
  let digits := Z.of_nat (length s) in
  if digits >? int_max_str_digits then Raise (IntStrTooLong digits)
  else Ok (int_value s).

(** ** The pattern [^(\d+)\s+(.+?)\s+(\d+)$]

    A backtracking matcher with the priorities of [re]: a greedy [+]
    tries the longest repetition first, the lazy [+?] the shortest; the
    continuation [k] receives the text matched and the rest. *)

Definition snoc (s : str) (c : char) : str := s ++ [c].

Fixpoint plus_greedy {A : Type} (cls : char -> bool)
    (k : str -> str -> option A) (acc s : str) : option A :=
  match s with
  | c :: s' =>
      if cls c then
        match plus_greedy cls k (snoc acc c) s' with
        | Some r => Some r
        | None => k (snoc acc c) s'
        end
      else None
  | [] => None
  end.

Fixpoint plus_lazy {A : Type} (cls : char -> bool)
    (k : str -> str -> option A) (acc s : str) : option A :=
  match s with
  | c :: s' =>
      if cls c then
        match k (snoc acc c) s' with
        | Some r => Some r
        | None => plus_lazy cls k (snoc acc c) s'
        end
      else None
  | [] => None
  end.

(** [$] without MULTILINE: the end of the string, or just before a newline
    that ends it. *)
Definition at_end (s : str) : bool :=
  match s with
  | [] => true
  | [c] => (c =? newline)%N
  | _ => false
  end.

(** [re.match(r'^(\d+)\s+(.+?)\s+(\d+)$', line)], giving the three groups. *)
Definition re_match (line : str) : option (str * str * str) :=
  plus_greedy isdigit (fun g1 s1 =>
  plus_greedy isspace (fun _ s2 =>
  plus_lazy dot (fun g2 s3 =>
  plus_greedy isspace (fun _ s4 =>
  plus_greedy isdigit (fun g3 s5 =>
    if at_end s5 then Some (g1, g2, g3) else None)
  [] s4) [] s3) [] s2) [] s1) [] line.

(** ** Messages printed on standard output *)

Inductive message : Type :=
| WarnMalformedLine (line : str)
    (* 警告: 忽略格式不正確的行: {line} *)
| ErrEmptyBookmarks
    (* 錯誤: 書籤數據為空 *)
| WarnPageOutOfRange (title : str) (page1 : Z) (total_pages : Z)
    (* 警告: 書籤 '{title}' 的頁碼 {page+1} 超出PDF範圍 (1-{total_pages}) *)
| Success (output_pdf : str)
    (* 成功: 已將書籤添加到 {output_pdf} *)
| OffsetApplied (page_offset : Z)
    (* 已應用頁碼偏移: {page_offset} ... *)
| ErrException (e : exn).
    (* 錯誤: {str(e)} *)

(** ** parse_bookmark_file *)

(** What [open(path, 'r', encoding='utf-8')] and the iteration over the
    file give: the lines read, then the exception that ends the reading
    early, if any (a file that does not open has no line). *)
Record text_file : Type := TextFile {
  file_lines : list str;
  file_error : option exn
}.

(** The loop of lines 33-54, with the list [bookmarks] and the output.
    An exception of [int] leaves the loop: the lines that follow are not
    read. *)
Fixpoint parse_lines (page_offset : Z) (lines : list str)
    (bookmarks : list bookmark) (out : list message)
    : list message * result (list bookmark) :=
  match lines with
  | [] => (out, Ok bookmarks)
  | raw :: rest =>
      let line := strip raw in
      if is_empty line || startswith_hash line then
        parse_lines page_offset rest bookmarks out
      else
        match re_match line with
        | Some (g1, g2, g3) =>
            match int g1 with
            | Raise e => (out, Raise e)
            | Ok level =>
                let title := g2 in
                match int g3 with
                | Raise e => (out, Raise e)
                | Ok page =>
                    let adjusted_page := page + page_offset - 1 in
                    parse_lines page_offset rest
                      (bookmarks ++ [Bookmark level title adjusted_page]) out
                end
            end
        | None =>
            parse_lines page_offset rest bookmarks (out ++ [WarnMalformedLine line])
        end
  end.

Definition parse_bookmark_file (f : text_file) (page_offset : Z)
    : list message * result (list bookmark) :=
  match parse_lines page_offset (file_lines f) [] [] with
  | (out, Ok bookmarks) =>
      match file_error f with
      | None => (out, Ok bookmarks)
      | Some e => (out, Raise e)
      end
  | (out, Raise e) => (out, Raise e)
  end.

(** ** The lines of a bookmark file

    What the loop of [parse_bookmark_file] does with a line: it passes
    over a line that is empty once stripped and over a line that starts
    with [#], and submits any other to the pattern. *)
Inductive line_kind : Type :=
| Blank
| Comment
| Entry (g1 g2 g3 : str)
| Malformed.

Definition classify (raw : str) : line_kind :=
  let line := strip raw in
  if is_empty line then Blank
  else if startswith_hash line then Comment
  else match re_match line with
       | Some (g1, g2, g3) => Entry g1 g2 g3
       | None => Malformed
       end.

(** The exception that a line raises: that of [int] on the level or,
    failing that, on the page of a line that matches. *)
Definition entry_error (raw : str) : option exn :=
  match classify raw with
  | Entry g1 _ g3 =>
      match int g1, int g3 with
      | Raise e, _ => Some e
      | Ok _, Raise e => Some e
      | Ok _, Ok _ => None
      end
  | _ => None
  end.

Definition readable (raw : str) : bool :=
  match entry_error raw with
  | None => true
  | Some _ => false
  end.

(** The record of a line that matches and raises nothing, the warning
    of a line that was submitted to the pattern and does not match. *)
Definition record_of (page_offset : Z) (raw : str) : option bookmark :=
  match classify raw with
  | Entry g1 g2 g3 =>
      match int g1, int g3 with
      | Ok level, Ok page => Some (Bookmark level g2 (page + page_offset - 1))
      | _, _ => None
      end
  | _ => None
  end.

Definition warning_of (raw : str) : option message :=
  match classify raw with
  | Malformed => Some (WarnMalformedLine (strip raw))
  | _ => None
  end.

(** The lines that the loop goes through, and the exception that stops
    it at the line after them, if any. *)
Fixpoint lines_read (lines : list str) : list str * option exn :=
  match lines with
  | [] => ([], None)
  | raw :: rest =>
      match entry_error raw with
      | Some e => ([], Some e)
      | None => let '(pre, e) := lines_read rest in (raw :: pre, e)
      end
  end.

Fixpoint all_chars (cls : char -> bool) (s : str) : bool :=
  match s with
  | [] => true
  | c :: s' => cls c && all_chars cls s'
  end.


(** ** The collaborators of add_bookmarks_to_pdf

    The file system and PyPDF2 are outside the program: they are taken as
    an [environment], whose operations answer with a value or raise. *)

Record environment (Page Writer Handle : Type) : Type := Environment {
  (* open(path, 'r', encoding='utf-8') and the lines of the file *)
  open_text : str -> text_file;
  (* PdfReader(path).pages *)
  PdfReader : str -> result (list Page);
  (* PdfWriter() *)
  PdfWriter : Writer;
  (* writer.add_page(page) *)
  add_page : Writer -> Page -> result Writer;
  (* writer.add_outline_item(title, page_num, parent=parent) *)
  add_outline_item : Writer -> str -> Z -> option Handle -> result (Handle * Writer);
  (* open(path, 'wb') *)
  open_wb : str -> option exn;
  (* writer.write(f) *)
  write : Writer -> option exn
}.
Arguments open_text {Page Writer Handle} e _.
Arguments PdfReader {Page Writer Handle} e _.
Arguments PdfWriter {Page Writer Handle} e.
Arguments add_page {Page Writer Handle} e _ _.
Arguments add_outline_item {Page Writer Handle} e _ _ _ _.
Arguments open_wb {Page Writer Handle} e _.
Arguments write {Page Writer Handle} e _.

(** The file at [output_pdf]: not opened, opened for writing (created or
    truncated) and not completed, or holding the document of a writer. *)
Inductive output_state (Writer : Type) : Type :=
| Untouched
| Truncated
| Written (w : Writer).
Arguments Untouched {Writer}.
Arguments Truncated {Writer}.
Arguments Written {Writer} w.

(** What a run does to the outside: the lines printed, the calls of
    [add_outline_item] with their arguments, and the output file. *)
Record world (Writer Handle : Type) : Type := World {
  stdout : list message;
  outline_calls : list (str * Z * option Handle);
  output : output_state Writer
}.
Arguments World {Writer Handle} _ _ _.
Arguments stdout {Writer Handle} w.
Arguments outline_calls {Writer Handle} w.
Arguments output {Writer Handle} w.

Definition world_init {Writer Handle : Type} : world Writer Handle :=
  World [] [] Untouched.

(** A computation that acts on the world and returns or raises; what it
    did before raising stays done. *)
Definition M (Writer Handle A : Type) : Type :=
  world Writer Handle -> world Writer Handle * result A.

Section Monad.
Context {Writer Handle : Type}.

Definition ret {A : Type} (a : A) : M Writer Handle A := fun w => (w, Ok a).

Definition bindM {A B : Type} (m : M Writer Handle A) (k : A -> M Writer Handle B)
    : M Writer Handle B :=
  fun w =>
    match m w with
    | (w', Ok a) => k a w'
    | (w', Raise e) => (w', Raise e)
    end.

Definition lift {A : Type} (r : result A) : M Writer Handle A := fun w => (w, r).

Definition print (m : message) : M Writer Handle unit :=
  fun w => (World (stdout w ++ [m]) (outline_calls w) (output w), Ok tt).

Definition print_all (ms : list message) : M Writer Handle unit :=
  fun w => (World (stdout w ++ ms) (outline_calls w) (output w), Ok tt).
End Monad.

Notation "'let!' x := m 'in' k" := (bindM m (fun x => k))
  (at level 10, x pattern, m at level 100, k at level 200).

(** The test of line 116 on the page of a record. *)
Definition out_of_range (total_pages : Z) (b : bookmark) : bool :=
  (page b <? 0) || (page b >=? total_pages).

(** [max(0, min(page, total_pages-1))] *)
Definition clamp (total_pages : Z) (p : Z) : Z :=
  Z.max 0 (Z.min p (total_pages - 1)).

Section AddBookmarks.
Context {Page Writer Handle : Type}.
Variable env : environment Page Writer Handle.

Local Abbreviation M := (M Writer Handle).

(** [for x in l: f x] *)
Definition for_each {A : Type} (f : A -> M unit) : list A -> M unit :=
  fix go (l : list A) : M unit :=
    match l with
    | [] => ret tt
    | x :: rest => let! _ := f x in go rest
    end.

(** [for x in l: acc = f(acc, x)], for the writer *)
Definition for_each_w {A : Type} (f : A -> Writer -> M Writer)
    : list A -> Writer -> M Writer :=
  fix go (l : list A) (w : Writer) : M Writer :=
    match l with
    | [] => ret w
    | x :: rest => let! w' := f x w in go rest w'
    end.

(** Lines 115-117: the advisory check of the pages of the records. *)
Definition check_page (total_pages : Z) (b : bookmark) : M unit :=
  if out_of_range total_pages b
  then print (WarnPageOutOfRange (title b) (page b + 1) total_pages)
  else ret tt.

(** Lines 120-121: [for page in reader.pages: writer.add_page(page)]. *)
Definition copy_page (pg : Page) (wr : Writer) : M Writer :=
  lift (add_page env wr pg).

(** The call [writer.add_outline_item(title, page_num, parent=parent)]. *)
Definition call_add_outline_item (wr : Writer) (t : str) (page_num : Z)
    (parent : option Handle) : M (Handle * Writer) :=
  fun w =>
    (World (stdout w) (outline_calls w ++ [(t, page_num, parent)]) (output w),
     add_outline_item env wr t page_num parent).

(** The body of the loops of lines 125-144 and 147-157 for one node:
    [parent] is absent at the top level. *)
Fixpoint attach (total_pages : Z) (parent : option Handle) (n : node)
    (wr : Writer) {struct n} : M Writer :=
  match n with
  | Node t p c =>
      let page_num := clamp total_pages p in
      match c with
      | Some ch =>
          let! (new_parent, wr') := call_add_outline_item wr t page_num parent in
          for_each_w (attach total_pages (Some new_parent)) ch wr'
      | None =>
          let! (_, wr') := call_add_outline_item wr t page_num parent in
          ret wr'
      end
  end.

(** [add_bookmarks_recursively(parent, bookmarks)], lines 124-144. *)
Definition add_bookmarks_recursively (total_pages : Z) (parent : Handle)
    (bookmarks : forest) (wr : Writer) : M Writer :=
  for_each_w (attach total_pages (Some parent)) bookmarks wr.

(** Lines 160-161: [with open(output_pdf, 'wb') as f: writer.write(f)]. *)
Definition save (output_pdf : str) (wr : Writer) : M unit :=
  fun w =>
    match open_wb env output_pdf with
    | Some e => (w, Raise e)
    | None =>
        match write env wr with
        | Some e => (World (stdout w) (outline_calls w) Truncated, Raise e)
        | None => (World (stdout w) (outline_calls w) (Written wr), Ok tt)
        end
    end.

(** The body of the [try], lines 100-166. *)
Definition add_bookmarks_body (input_pdf output_pdf bookmark_file : str)
    (page_offset : Z) : M bool :=
  let '(warnings, parsed) :=
    parse_bookmark_file (open_text env bookmark_file) page_offset in
  let! _ := print_all warnings in
  let! bookmarks := lift parsed in
  match bookmarks with
  | [] =>
      let! _ := print ErrEmptyBookmarks in
      ret false
  | _ =>
      let! bookmark_tree := lift (create_bookmark_tree bookmarks) in
      let! reader_pages := lift (PdfReader env input_pdf) in
      let writer := PdfWriter env in
      let total_pages := Z.of_nat (length reader_pages) in
      let! _ := for_each (check_page total_pages) bookmarks in
      let! writer := for_each_w copy_page reader_pages writer in
      let! writer := for_each_w (attach total_pages None) bookmark_tree writer in
      let! _ := save output_pdf writer in
      let! _ := print (Success output_pdf) in
      let! _ := (if page_offset =? 0 then ret tt else print (OffsetApplied page_offset)) in
      ret true
  end.

(** [add_bookmarks_to_pdf(input_pdf, output_pdf, bookmark_file, page_offset)]:
    the [try] and its handler [except Exception as e], lines 99-170. *)
Definition add_bookmarks_to_pdf (input_pdf output_pdf bookmark_file : str)
    (page_offset : Z) : world Writer Handle * bool :=
  match add_bookmarks_body input_pdf output_pdf bookmark_file page_offset world_init with
  | (w, Ok b) => (w, b)
  | (w, Raise e) =>
      (World (stdout w ++ [ErrException e]) (outline_calls w) (output w), false)
  end.

End AddBookmarks.

(** Instances of the collaborators for the examples: a document is its
    list of pages and outline entries, a handle the index of an entry;
    each operation fails when a fault is set for it. *)
Definition simple_writer : Type := list nat * list (str * Z * option nat).

Record faults : Type := Faults {
  reader_fault : option exn;
  page_fault : option exn;
  outline_fault : option exn;
  open_fault : option exn;
  write_fault : option exn
}.

Definition no_fault : faults := Faults None None None None None.

Definition or_raise {A : Type} (fault : option exn) (a : A) : result A :=
  match fault with
  | Some e => Raise e
  | None => Ok a
  end.

Definition test_env (bookmark_file : text_file) (npages : nat) (fl : faults)
    : environment nat simple_writer nat :=
  {| open_text := fun _ => bookmark_file;
     PdfReader := fun _ => or_raise (reader_fault fl) (seq 0 npages);
     PdfWriter := ([], []);
     add_page := fun w pg => or_raise (page_fault fl) (fst w ++ [pg], snd w);
     add_outline_item := fun w t p parent =>
       or_raise (outline_fault fl)
                (length (snd w), (fst w, snd w ++ [(t, p, parent)]));
     open_wb := fun _ => open_fault fl;
     write := fun _ => write_fault fl |}.

Definition simple_env (bookmark_file : text_file) (npages : nat)
    : environment nat simple_writer nat :=
  test_env bookmark_file npages no_fault.

(** ** The advisory check and the targets of the attachment *)

(** One warning for each record out of range, in the order of the
    records, with the title, the page counted from 1 and the range. *)
Definition range_warnings (total_pages : Z) (bookmarks : list bookmark) : list message :=
  flat_map (fun b =>
    if out_of_range total_pages b
    then [WarnPageOutOfRange (title b) (page b + 1) total_pages]
    else []) bookmarks.

Definition is_page_warning (m : message) : bool :=
  match m with
  | WarnPageOutOfRange _ _ _ => true
  | _ => false
  end.

(** The title and the clamped page that the attachment passes for a
    record. *)
Definition target (total_pages : Z) (tp : str * Z) : str * Z :=
  (fst tp, clamp total_pages (snd tp)).

(** What an attachment does to the world: it prints nothing, leaves the
    output file alone and adds calls, for the nodes [expected] in order,
    all of them when it returns. *)
Definition attaches {Writer Handle : Type} (total_pages : Z)
    (expected : list (str * Z)) (w : world Writer Handle)
    (res : world Writer Handle * result Writer) : Prop :=
  stdout (fst res) = stdout w /\ output (fst res) = output w /\
  exists cs, outline_calls (fst res) = outline_calls w ++ cs /\
             map fst cs `prefix_of` map (target total_pages) expected /\
             (forall wr', snd res = Ok wr' ->
                map fst cs = map (target total_pages) expected).

Definition a_file_of_comments : text_file :=
  TextFile ["# table of contents"; []; "   "; "  # 1 Intro 5"] None.




(** The file of [a_file_with_a_bad_line] as a writer of Chinese may type
    it: the second entry has fullwidth digits, an ideographic space and
    a title in Chinese. *)
Definition a_file_with_wide_digits : text_file :=
  TextFile ["1 Intro 5"; "oops";
            [0xff12; 0x3000; 0x7b2c; 0x4e00; 0x7ae0; 0x3000; 0xff17]%N;
            "1 End 9"] None.

Definition toc_file : text_file :=
  TextFile ["# toc"; "1 Intro 0"; "2 Part one 2"; "2 Part two 40"; "1 End 9"] None.

Definition skipping_file : text_file :=
  TextFile ["1 A 1"; "3 B 2"; "1 C 3"] None.

Definition unreadable_file : text_file :=
  TextFile ["1 Intro 5"; "oops"] (Some (External "invalid start byte")).

Definition short_file : text_file :=
  TextFile ["1 Intro 1"; "2 Part one 12"] None.

Definition levels_1_3_1 : list bookmark :=
  [Bookmark 1 "A" 0; Bookmark 3 "B" 1; Bookmark 1 "C" 2].
Definition levels_1_2_2_1 : list bookmark :=
  [Bookmark 1 "A" 0; Bookmark 2 "B" 1; Bookmark 2 "C" 2; Bookmark 1 "D" 3].
Definition levels_2_1 : list bookmark :=
  [Bookmark 2 "A" 0; Bookmark 1 "B" 1].

(** ** The invariant of the builder

    The store is related to the forest under construction, cut along the
    path that [parents] keeps open. A [frame] is one open level: the nodes
    already closed at that level, and the title and page of the node whose
    children list is the next entry of the stack. *)

Definition frame : Type := forest * str * Z.

(** The forest that the frames (bottom first) and the top list stand for. *)
Fixpoint plug (frames : list frame) (top : forest) : forest :=
  match frames with
  | [] => top
  | (pre, t, p) :: fs => pre ++ [Node t p (Some (plug fs top))]
  end.

Fixpoint frames_preorder (frames : list frame) : list (str * Z) :=
  match frames with
  | [] => []
  | (pre, t, p) :: fs => preorder_forest pre ++ (t, p) :: frames_preorder fs
  end.

(** [repr_node h lo hi d n]: the dictionary at [d] and what it reaches
    have the value [n] and lie at references in [lo, hi);
    [repr_items h lo hi ds ns]: the same for the dictionaries [ds] of a
    list, one after the other. *)
Inductive repr_node (h : heap) : nat -> nat -> loc -> node -> Prop :=
| repr_leaf lo hi d t p :
    (lo <= d < hi)%nat ->
    h !! d = Some (ODict t p None) ->
    repr_node h lo hi d (Node t p None)
| repr_inner lo hi d t p lc items ch :
    (lo <= d < lc)%nat -> (lc < hi)%nat ->
    h !! d = Some (ODict t p (Some lc)) ->
    h !! lc = Some (OList items) ->
    repr_items h (S lc) hi items ch ->
    repr_node h lo hi d (Node t p (Some ch))
with repr_items (h : heap) : nat -> nat -> list loc -> list node -> Prop :=
| repr_nil lo hi :
    (lo <= hi)%nat ->
    repr_items h lo hi [] []
| repr_cons lo mid hi d ds n ns :
    repr_node h lo mid d n ->
    repr_items h mid hi ds ns ->
    repr_items h lo hi (d :: ds) (n :: ns).

Scheme repr_node_mut := Minimality for repr_node Sort Prop
  with repr_items_mut := Minimality for repr_items Sort Prop.
Combined Scheme repr_mutind from repr_node_mut, repr_items_mut.

(** [spine h lo ps fs top]: the stack [ps] (bottom first) holds the lists
    of the open levels [fs], then the list of [top]. *)
Inductive spine (h : heap) : nat -> list loc -> list frame -> forest -> Prop :=
| spine_top lo l items top :
    (lo <= l)%nat ->
    h !! l = Some (OList items) ->
    repr_items h (S l) (length h) items top ->
    spine h lo [l] [] top
| spine_frame lo l ds P pre t p l' ps fs top :
    (lo <= l < P)%nat ->
    h !! l = Some (OList (ds ++ [P])) ->
    repr_items h (S l) P ds pre ->
    h !! P = Some (ODict t p (Some l')) ->
    spine h (S P) (l' :: ps) fs top ->
    spine h lo (l :: l' :: ps) ((pre, t, p) :: fs) top.

Definition label (b : bookmark) : str * Z := (title b, page b).

(** The invariant of the loop after the records [done]. *)
Definition builder_inv (st : builder) (done : list bookmark) : Prop :=
  exists fs top,
    spine (store st) 0 (parents st) fs top /\
    head (parents st) = Some root /\
    frames_preorder fs ++ preorder_forest top = map label done /\
    (top = [] \/ exists pre t p, top = pre ++ [Node t p None]).

(** ** Depths *)

(** Pre-order traversal with the depth of each node, the roots at [k]. *)
Fixpoint depth_preorder (k : nat) (n : node) : list (str * Z * nat) :=
  match n with
  | Node t p c =>
      (t, p, k) :: match c with
                   | None => []
                   | Some ch => flat_map (depth_preorder (S k)) ch
                   end
  end.

Definition forest_depths (k : nat) (f : forest) : list (str * Z * nat) :=
  flat_map (depth_preorder k) f.

Fixpoint frames_depths (k : nat) (frames : list frame) : list (str * Z * nat) :=
  match frames with
  | [] => []
  | (pre, t, p) :: fs => forest_depths k pre ++ (t, p, k) :: frames_depths (S k) fs
  end.

(** A node whose key ['children'], when present, holds a list that is not
    empty, and so on below it. *)
Fixpoint proper (n : node) : bool :=
  match n with
  | Node _ _ None => true
  | Node _ _ (Some ch) =>
      match ch with
      | [] => false
      | _ => forallb proper ch
      end
  end.

(** The length of [parents] after the adjustment for a record of level
    [lv], read off lines 68-78: one more on a descent (none for the first
    record, which finds the root list empty), [prev_level - level] fewer
    on an ascent, which must leave one; [None] when the stack is emptied. *)
Definition stack_after (lv prev : Z) (d : nat) (started : bool) : option nat :=
  if lv >? prev then Some (if started then S d else d)
  else if lv <? prev then
    let n := Z.to_nat (prev - lv) in
    if (n <? d)%nat then Some (d - n)%nat else None
  else Some d.

(** The depth at which each record is appended, from the levels alone. *)
Fixpoint plan (prev : Z) (d : nat) (started : bool) (levels : list Z)
    : option (list nat) :=
  match levels with
  | [] => Some []
  | lv :: rest =>
      match stack_after lv prev d started with
      | Some d' =>
          match plan lv d' true rest with
          | Some ds => Some ((d' - 1)%nat :: ds)
          | None => None
          end
      | None => None
      end
  end.

Definition node_depths (levels : list Z) : option (list nat) :=
  plan 0 1 false levels.

(** The invariant of the loop with depths: as [builder_inv], with the
    depth of every node and without empty children lists. *)
Definition depth_inv (st : builder) (done : list bookmark) (ds : list nat) : Prop :=
  exists fs top,
    spine (store st) 0 (parents st) fs top /\
    head (parents st) = Some root /\
    frames_depths 0 fs ++ forest_depths (length fs) top = zip (map label done) ds /\
    length ds = length done /\
    (done = [] /\ fs = [] /\ top = [] \/
     done <> [] /\ exists pre t p, top = pre ++ [Node t p None]) /\
    forallb proper top = true /\
    Forall (fun fr : frame => forallb proper fr.1.1 = true) fs.

(** Whether a record has been appended: then the list on top of the
    stack is not empty (line 70). *)
Definition started (done : list bookmark) : bool :=
  match done with [] => false | _ => true end.

(** Levels that stay at or above [floor] and rise by one at most. *)
Fixpoint steady (floor prev : Z) (levels : list Z) : Prop :=
  match levels with
  | [] => True
  | lv :: rest => floor <= lv <= prev + 1 /\ steady floor lv rest
  end.

Definition levels_1_2_4_2 : list bookmark :=
  [Bookmark 1 "A" 0; Bookmark 2 "B" 1; Bookmark 4 "C" 2; Bookmark 2 "D" 3].

(** ** Lines and offsets *)

(** [raw'] is [raw] between two runs of white space. *)
Definition padded (raw' raw : str) : Prop :=
  exists pad1 pad2,
    all_chars isspace pad1 = true /\ all_chars isspace pad2 = true /\
    raw' = pad1 ++ raw ++ pad2.

(** The record with its page moved by the offset. *)
Definition shift_page (page_offset : Z) (b : bookmark) : bookmark :=
  Bookmark (level b) (title b) (page b + page_offset).

(** A line that is passed over without a word. *)
Definition silent (raw : str) : bool :=
  is_empty (strip raw) || startswith_hash (strip raw).

(** Two lines with white space around them: the first ends with its
    newline, the second starts with an ideographic space and a tab. *)
Definition padded_lines : list str :=
  ["  1 Intro 5" ++ [newline]; [0x3000; 0x09]%N ++ "oops "].

(** ** The report of a run *)

(** Lines 163-165: the last lines of a run that succeeds. *)
Definition success_report (output_pdf : str) (page_offset : Z) : list message :=
  Success output_pdf :: (if page_offset =? 0 then [] else [OffsetApplied page_offset]).


(** An entry of [forest_depths] with its page moved by the offset. *)
Definition shift_depth (page_offset : Z) (x : str * Z * nat) : str * Z * nat :=
  (fst (fst x), snd (fst x) + page_offset, snd x).

(** ** The command line

    [main()], lines 172-202. What [main] prints itself: the three lines of
    the usage and the three errors of its checks. *)
Inductive main_message : Type :=
| UsageSynopsis
| UsageOffsetMeaning
| UsageOffsetExample
| ErrOffsetNotInteger (argument : str)
| ErrInputMissing (input_pdf : str)
| ErrBookmarkFileMissing (bookmark_file : str).

(** Lines 175-177. *)
Definition usage : list main_message :=
  [UsageSynopsis; UsageOffsetMeaning; UsageOffsetExample].

(** [main] returns [None] on every path. Either it prints and returns
    before the call of line 202, or it prints nothing itself and calls
    [add_bookmarks_to_pdf], whose world and result (which [main] drops)
    are kept here. *)
Inductive main_outcome (Writer Handle : Type) : Type :=
| Refused (printed : list main_message)
| Ran (w : world Writer Handle) (returned : bool).
Arguments Refused {Writer Handle} printed.
Arguments Ran {Writer Handle} w returned.

Section Main.
Context {Page Writer Handle : Type}.
Variable env : environment Page Writer Handle.
(** [os.path.exists] *)
Variable path_exists : str -> bool.
(** [int(sys.argv[4])] on the text of an argument; [None] is [ValueError]. *)
Variable int_of_argument : str -> option Z.

(** Lines 193-202: the two checks of existence and the call. *)
Definition checked_call (input_pdf output_pdf bookmark_file : str) (page_offset : Z)
    : main_outcome Writer Handle :=
  if negb (path_exists input_pdf) then Refused [ErrInputMissing input_pdf]
  else if negb (path_exists bookmark_file) then Refused [ErrBookmarkFileMissing bookmark_file]
  else
    let (w, returned) :=
      add_bookmarks_to_pdf env input_pdf output_pdf bookmark_file page_offset in
    Ran w returned.

(** [main()] on [sys.argv]: the list has the name of the program first.
    With 4 or 5 entries the reads [sys.argv[1]] to [sys.argv[4]] are in
    range, so the test of the length is the match on the shape. *)
Definition main (argv : list str) : main_outcome Writer Handle :=
  match argv with
  | [_; input_pdf; output_pdf; bookmark_file] =>
      checked_call input_pdf output_pdf bookmark_file 0
  | [_; input_pdf; output_pdf; bookmark_file; argument] =>
      match int_of_argument argument with
      | Some page_offset => checked_call input_pdf output_pdf bookmark_file page_offset
      | None => Refused [ErrOffsetNotInteger argument]
      end
  | _ => Refused usage
  end.

End Main.

(** An instance for the examples: two files exist, and an argument is an
    integer when it is made of digits. *)
Definition two_files (path : str) : bool :=
  bool_decide (path = "in.pdf") || bool_decide (path = "toc.txt").

Definition digits_only (s : str) : option Z :=
  if negb (is_empty s) && all_chars isdigit s then
    match int s with
    | Ok n => Some n
    | Raise _ => None
    end
  else None.

(** * Proofs *)

(** ** Representation in the store *)

Lemma repr_bounds h :
  (forall lo hi d n, repr_node h lo hi d n -> (lo <= d < hi)%nat) /\
  (forall lo hi ds ns, repr_items h lo hi ds ns -> (lo <= hi)%nat).
Proof. apply repr_mutind; intros; lia. Qed.

Lemma repr_node_bounds h lo hi d n : repr_node h lo hi d n -> (lo <= d < hi)%nat.
Proof. apply repr_bounds. Qed.

Lemma repr_items_bounds h lo hi ds ns : repr_items h lo hi ds ns -> (lo <= hi)%nat.
Proof. apply repr_bounds. Qed.

(** A store that agrees on [lo, hi) represents the same values there. *)
Lemma repr_frame h h' :
  (forall lo hi d n, repr_node h lo hi d n ->
     (forall l, (lo <= l < hi)%nat -> h' !! l = h !! l) -> repr_node h' lo hi d n) /\
  (forall lo hi ds ns, repr_items h lo hi ds ns ->
     (forall l, (lo <= l < hi)%nat -> h' !! l = h !! l) -> repr_items h' lo hi ds ns).
Proof.
  apply repr_mutind.
  - intros lo hi d t p Hd Hh Hag. apply repr_leaf; [lia|]. rewrite Hag; [done|lia].
  - intros lo hi d t p lc items ch Hd Hlc Hh Hl _ IH Hag.
    apply (repr_inner h' lo hi d t p lc items ch); [lia | lia | | | ].
    + rewrite Hag; [done|lia].
    + rewrite Hag; [done|lia].
    + apply IH. intros l Hl'. apply Hag. lia.
  - intros lo hi Hle _. by apply repr_nil.
  - intros lo mid hi d ds n ns Hn IHn Hs IHs Hag.
    pose proof (repr_node_bounds _ _ _ _ _ Hn).
    pose proof (repr_items_bounds _ _ _ _ _ Hs).
    eapply repr_cons.
    + apply IHn. intros l Hl. apply Hag. lia.
    + apply IHs. intros l Hl. apply Hag. lia.
Qed.

Lemma repr_widen h :
  (forall lo hi d n, repr_node h lo hi d n ->
     forall hi', (hi <= hi')%nat -> repr_node h lo hi' d n) /\
  (forall lo hi ds ns, repr_items h lo hi ds ns ->
     forall hi', (hi <= hi')%nat -> repr_items h lo hi' ds ns).
Proof.
  apply repr_mutind.
  - intros. apply repr_leaf; [lia|done].
  - intros lo hi d t p lc items ch Hd Hlc Hh Hl _ IH hi' Hle.
    apply (repr_inner h lo hi' d t p lc items ch); eauto; lia.
  - intros. apply repr_nil. lia.
  - intros lo mid hi d ds n ns Hn _ _ IHs hi' Hle.
    eapply repr_cons; eauto.
Qed.

Lemma repr_items_length h lo hi ds ns :
  repr_items h lo hi ds ns -> length ds = length ns.
Proof.
  revert lo ns. induction ds as [|d ds IH]; intros lo ns H; inversion H; subst; simpl; [done|].
  f_equal. eauto.
Qed.

Lemma repr_node_lower h lo lo' hi d n :
  repr_node h lo hi d n -> (lo' <= lo)%nat -> repr_node h lo' hi d n.
Proof.
  intros Hn Hle. inversion Hn; subst.
  - apply repr_leaf; [lia|done].
  - apply (repr_inner h lo' hi d t p lc items ch); auto; lia.
Qed.

Lemma repr_items_snoc h lo mid hi ds pre d n :
  repr_items h lo mid ds pre -> repr_node h mid hi d n ->
  repr_items h lo hi (ds ++ [d]) (pre ++ [n]).
Proof.
  revert lo pre. induction ds as [|d0 ds IH]; intros lo pre Hs Hn; inversion Hs; subst; simpl.
  - apply (repr_cons h lo hi hi).
    + by apply (repr_node_lower h mid).
    + apply repr_nil. lia.
  - eapply repr_cons; eauto.
Qed.

Lemma repr_items_snoc_inv h lo hi ds d ns :
  repr_items h lo hi (ds ++ [d]) ns ->
  exists pre n mid, ns = pre ++ [n] /\ repr_items h lo mid ds pre /\ repr_node h mid hi d n.
Proof.
  revert lo ns. induction ds as [|d0 ds IH]; intros lo ns H; simpl in H; inversion H; subst.
  - match goal with Hx : repr_items _ _ _ [] _ |- _ => inversion Hx; subst end.
    match goal with Hx : repr_node _ _ _ _ _ |- _ => pose proof (repr_node_bounds _ _ _ _ _ Hx) as Hb;
      exists [], n, lo; split; [done|]; split; [apply repr_nil; lia|];
      eapply (proj1 (repr_widen h)); [exact Hx | lia] end.
  - match goal with Hx : repr_items _ _ _ (ds ++ [d]) _ |- _ =>
      destruct (IH _ _ Hx) as (pre & n' & mid' & -> & Hpre & Hn') end.
    exists (n :: pre), n', mid'. split; [done|]. split; [|done].
    eapply repr_cons; eauto.
Qed.

Lemma read_node_S fuel h d :
  read_node (S fuel) h d =
    match h !! d with
    | Some (ODict t p None) => Some (Node t p None)
    | Some (ODict t p (Some lc)) =>
        match h !! lc with
        | Some (OList items) =>
            ch ← mapM (read_node fuel h) items; Some (Node t p (Some ch))
        | _ => None
        end
    | _ => None
    end.
Proof. reflexivity. Qed.

(** Reading back a represented value, with fuel for the interval. *)
Lemma read_repr h :
  (forall lo hi d n, repr_node h lo hi d n ->
     forall fuel, (hi - lo <= fuel)%nat -> read_node fuel h d = Some n) /\
  (forall lo hi ds ns, repr_items h lo hi ds ns ->
     forall fuel, (hi - lo <= fuel)%nat -> mapM (read_node fuel h) ds = Some ns).
Proof.
  apply repr_mutind.
  - intros lo hi d t p Hd Hh fuel Hf. destruct fuel as [|fuel]; [lia|].
    by rewrite read_node_S, Hh.
  - intros lo hi d t p lc items ch Hd Hlc Hh Hl _ IH fuel Hf.
    destruct fuel as [|fuel]; [lia|]. rewrite read_node_S, Hh, Hl.
    rewrite IH; [done|lia].
  - intros. done.
  - intros lo mid hi d ds n ns Hn IHn Hs IHs fuel Hf.
    pose proof (repr_node_bounds _ _ _ _ _ Hn).
    pose proof (repr_items_bounds _ _ _ _ _ Hs).
    apply mapM_Some. constructor.
    + apply IHn. lia.
    + apply mapM_Some. apply IHs. lia.
Qed.

(** ** The open path *)

Lemma spine_length h lo ps fs top :
  spine h lo ps fs top -> length ps = S (length fs).
Proof. induction 1; simpl; auto. Qed.

Lemma spine_head h lo ps fs top :
  spine h lo ps fs top -> exists l ps', ps = l :: ps' /\ (lo <= l)%nat.
Proof. destruct 1; eexists _, _; split; eauto; lia. Qed.

(** The list on top of the stack holds the nodes of [top]. *)
Lemma spine_last h lo ps fs top :
  spine h lo ps fs top ->
  exists l items,
    last ps = Some l /\ (lo <= l)%nat /\ h !! l = Some (OList items) /\
    repr_items h (S l) (length h) items top.
Proof.
  induction 1 as [lo l items top Hlo Hl Hr | lo l ds P pre t p l' ps fs top Hlo Hl Hr HP Hsp IH].
  - exists l, items. auto.
  - destruct IH as (l1 & items1 & Hlast & Hle & Hl1 & Hr1).
    exists l1, items1. rewrite last_cons_cons. repeat split; auto; lia.
Qed.

(** The list at the bottom of the stack holds the whole forest. *)
Lemma spine_bottom h lo l ps fs top :
  spine h lo (l :: ps) fs top ->
  exists items, h !! l = Some (OList items) /\
                repr_items h (S l) (length h) items (plug fs top).
Proof.
  intros H. remember (l :: ps) as ps0 eqn:E. revert l ps E.
  induction H as [lo l0 items top Hlo Hl Hr | lo l0 ds P pre t p l' ps0 fs top Hlo Hl Hr HP Hsp IH];
    intros l ps E; injection E as <- <-.
  - exists items. auto.
  - destruct (IH l' ps0 eq_refl) as (items' & Hl' & Hr').
    exists (ds ++ [P]). split; [done|]. simpl.
    apply (repr_items_snoc h (S l0) P); [done|].
    apply lookup_lt_Some in Hl' as Hlt.
    destruct (spine_head _ _ _ _ _ Hsp) as (l1 & ps1 & E1 & Hle1). injection E1 as <- <-.
    apply (repr_inner h P (length h) P t p l' items'); auto; lia.
Qed.

Lemma lookup_update_other (h : heap) l j x o :
  j <> l -> (j < length h)%nat -> (<[l := x]> (h ++ [o])) !! j = h !! j.
Proof.
  intros Hne Hlt. rewrite list_lookup_insert_ne; [|done]. by apply lookup_app_l.
Qed.

Lemma lookup_update_same (h : heap) l x o :
  (l < length h)%nat -> (<[l := x]> (h ++ [o])) !! l = Some x.
Proof.
  intros Hlt. apply list_lookup_insert_eq. rewrite length_app. lia.
Qed.

Lemma lookup_update_new (h : heap) l x o :
  (l < length h)%nat -> (<[l := x]> (h ++ [o])) !! (length h) = Some o.
Proof.
  intros Hlt. rewrite list_lookup_insert_ne; [|lia].
  rewrite lookup_app_r; [|lia]. by rewrite Nat.sub_diag.
Qed.

Lemma length_update (h : heap) l x o :
  length (<[l := x]> (h ++ [o])) = S (length h).
Proof. rewrite length_insert, length_app. simpl. lia. Qed.

(** [parents[-1].append(node)] extends the top list. *)
Lemma spine_append h lo ps fs top l items t p :
  spine h lo ps fs top ->
  last ps = Some l -> h !! l = Some (OList items) ->
  spine (<[l := OList (items ++ [length h])]> (h ++ [ODict t p None]))
        lo ps fs (top ++ [Node t p None]).
Proof.
  intros Hsp. revert l items.
  induction Hsp as [lo l0 items0 top Hlo Hl Hr | lo l0 ds P pre t0 p0 l' ps fs top Hlo Hl Hr HP Hsp IH];
    intros l items Hlast Hitems.
  - simpl in Hlast. injection Hlast as <-. rewrite Hl in Hitems. injection Hitems as <-.
    apply lookup_lt_Some in Hl as Hlt.
    eapply spine_top; [done | by apply lookup_update_same |].
    rewrite length_update.
    apply (repr_items_snoc _ (S l0) (length h)).
    + apply (proj2 (repr_frame h _)); [done|].
      intros j Hj. apply lookup_update_other; lia.
    + apply repr_leaf; [lia|]. by apply lookup_update_new.
  - rewrite last_cons_cons in Hlast.
    destruct (spine_last _ _ _ _ _ Hsp) as (l1 & items1 & Hlast1 & Hle1 & Hl1 & _).
    rewrite Hlast in Hlast1. injection Hlast1 as <-.
    apply lookup_lt_Some in Hl as Hlt. apply lookup_lt_Some in HP as HPlt.
    eapply spine_frame; [done | | | | by apply IH].
    + rewrite lookup_update_other; [done | lia | lia].
    + apply (proj2 (repr_frame h _)); [done|].
      intros j Hj. apply lookup_update_other; lia.
    + rewrite lookup_update_other; [done | lia | lia].
Qed.

(** The descent: the last node of the top list gets a children list,
    which becomes the top of the stack. *)
Lemma spine_push h lo ps fs pre t p l ds d :
  spine h lo ps fs (pre ++ [Node t p None]) ->
  last ps = Some l -> h !! l = Some (OList (ds ++ [d])) ->
  spine (<[d := ODict t p (Some (length h))]> (h ++ [OList []]))
        lo (ps ++ [length h]) (fs ++ [(pre, t, p)]) [].
Proof.
  intros Hsp. remember (pre ++ [Node t p None]) as top eqn:Etop. revert l ds d Etop.
  induction Hsp as [lo l0 items0 top Hlo Hl Hr | lo l0 ds0 P pre0 t0 p0 l' ps fs top Hlo Hl Hr HP Hsp IH];
    intros l ds d Etop Hlast Hitems.
  - simpl in Hlast. injection Hlast as <-. rewrite Hl in Hitems. injection Hitems as ->.
    subst top.
    destruct (repr_items_snoc_inv _ _ _ _ _ _ Hr) as (pre' & n & mid & E & Hpre & Hn).
    apply app_inj_tail in E as [<- <-].
    inversion Hn as [? ? ? ? ? Hd Hhd|]; subst.
    pose proof (repr_items_bounds _ _ _ _ _ Hpre) as Hb.
    apply lookup_lt_Some in Hl as Hlt.
    simpl. apply (spine_frame _ lo l0 ds d pre t p (length h) [] [] []).
    + lia.
    + rewrite lookup_update_other; [done | lia | lia].
    + apply (proj2 (repr_frame h _)).
      * apply (proj2 (repr_widen h) _ _ _ _ Hpre). lia.
      * intros j Hj. apply lookup_update_other; lia.
    + apply lookup_update_same. lia.
    + eapply spine_top; [lia | by apply lookup_update_new; lia |].
      rewrite length_update. apply repr_nil. lia.
  - rewrite last_cons_cons in Hlast.
    destruct (spine_last _ _ _ _ _ Hsp) as (l1 & items1 & Hlast1 & Hle1 & Hl1 & Hr1).
    rewrite Hlast in Hlast1. injection Hlast1 as <-.
    rewrite Hitems in Hl1. injection Hl1 as <-. subst top.
    destruct (repr_items_snoc_inv _ _ _ _ _ _ Hr1) as (pre' & n & mid & E & Hpre & Hn).
    apply repr_node_bounds in Hn as Hdb. apply repr_items_bounds in Hpre as Hmb.
    apply lookup_lt_Some in Hl as Hlt. apply lookup_lt_Some in HP as HPlt.
    simpl. eapply spine_frame; [done | | | | by eapply IH].
    + rewrite lookup_update_other; [done | lia | lia].
    + apply (proj2 (repr_frame h _)); [done|].
      intros j Hj. apply lookup_update_other; lia.
    + rewrite lookup_update_other; [done | lia | lia].
Qed.

Lemma spine_top_inv h lo ps top :
  spine h lo ps [] top ->
  exists l items, ps = [l] /\ (lo <= l)%nat /\ h !! l = Some (OList items) /\
                  repr_items h (S l) (length h) items top.
Proof. inversion 1; subst. eauto 10. Qed.

Lemma spine_frame_inv h lo ps pre t p fs top :
  spine h lo ps ((pre, t, p) :: fs) top ->
  exists l ds P l' ps',
    ps = l :: l' :: ps' /\ (lo <= l < P)%nat /\
    h !! l = Some (OList (ds ++ [P])) /\ repr_items h (S l) P ds pre /\
    h !! P = Some (ODict t p (Some l')) /\ spine h (S P) (l' :: ps') fs top.
Proof. inversion 1; subst. eauto 12. Qed.

(** The ascent by one level: the top list is closed under its node. *)
Lemma spine_pop h lo ps l fs pre t p top :
  spine h lo (ps ++ [l]) (fs ++ [(pre, t, p)]) top ->
  spine h lo ps fs (pre ++ [Node t p (Some top)]).
Proof.
  revert lo ps. induction fs as [|[[pre0 t0] p0] fs IH]; intros lo ps H; simpl in H.
  - apply spine_frame_inv in H as (l0 & ds & P & l' & ps' & E & Hlo & Hl & Hr & HP & Hsp).
    apply spine_top_inv in Hsp as (l1 & items & E1 & Hlo1 & Hl1 & Hr1).
    injection E1 as <- ->.
    assert (ps = [l0] /\ l = l') as [-> ->].
    { destruct ps as [|a [|b ps]]; simplify_eq/=; auto.
      destruct ps; simplify_eq/=. }
    apply lookup_lt_Some in Hl1 as Hlt.
    eapply spine_top; [lia | done |].
    apply (repr_items_snoc h (S l0) P); [done|].
    apply (repr_inner h P (length h) P t p l' items); auto; lia.
  - apply spine_frame_inv in H as (l0 & ds & P & l' & ps' & E & Hlo & Hl & Hr & HP & Hsp).
    destruct ps as [|a ps]; [destruct ps'; simplify_eq/=|].
    simpl in E. injection E as -> E.
    rewrite <- E in Hsp. apply IH in Hsp.
    destruct (spine_head _ _ _ _ _ Hsp) as (l1 & ps1 & -> & _).
    assert (l1 = l') as -> by (simpl in E; congruence).
    by eapply spine_frame.
Qed.

(** ** Pre-order of the forest under construction *)

Lemma preorder_forest_app f g :
  preorder_forest (f ++ g) = preorder_forest f ++ preorder_forest g.
Proof. apply flat_map_app. Qed.

Lemma preorder_forest_leaf t p : preorder_forest [Node t p None] = [(t, p)].
Proof. reflexivity. Qed.

Lemma preorder_forest_inner t p ch :
  preorder_forest [Node t p (Some ch)] = (t, p) :: preorder_forest ch.
Proof. unfold preorder_forest. simpl. by rewrite app_nil_r. Qed.

Lemma frames_preorder_snoc fs pre t p :
  frames_preorder (fs ++ [(pre, t, p)]) =
  frames_preorder fs ++ preorder_forest pre ++ [(t, p)].
Proof.
  induction fs as [|[[pre0 t0] p0] fs IH]; simpl.
  - done.
  - rewrite IH. by rewrite <- !app_assoc.
Qed.

Lemma plug_preorder fs top :
  preorder_forest (plug fs top) = frames_preorder fs ++ preorder_forest top.
Proof.
  induction fs as [|[[pre t] p] fs IH]; simpl; [done|].
  rewrite preorder_forest_app, preorder_forest_inner, IH. by rewrite <- app_assoc.
Qed.

(** ** The steps of the loop keep the invariant *)

Lemma py_last_Ok {A} (l : list A) x : last l = Some x -> py_last l = Ok x.
Proof. unfold py_last. by intros ->. Qed.

Lemma py_last_Raise {A} (l : list A) e : py_last l = Raise e -> l = [] /\ e = ListIndexOutOfRange.
Proof.
  unfold py_last. destruct (last l) eqn:E; [done|].
  intros [= <-]. by apply last_None in E.
Qed.

Lemma pop_n_Raise {A} n (l : list A) e : pop_n n l = Raise e -> e = PopFromEmptyList.
Proof.
  revert l. induction n as [|n IH]; intros l; simpl; [done|].
  destruct l as [|a l]; simpl; [congruence|]. apply IH.
Qed.

Lemma head_snoc {A} (l : list A) x : l <> [] -> head (l ++ [x]) = head l.
Proof. by destruct l. Qed.

Lemma pop_n_spine h lo n : forall ps fs top ps',
  spine h lo ps fs top -> pop_n n ps = Ok ps' -> ps' <> [] ->
  exists fs' top',
    spine h lo ps' fs' top' /\
    frames_preorder fs' ++ preorder_forest top' =
      frames_preorder fs ++ preorder_forest top /\
    head ps' = head ps.
Proof.
  induction n as [|n IH]; intros ps fs top ps' Hsp Hpop Hne; simpl in Hpop.
  - injection Hpop as <-. eauto.
  - destruct (spine_last _ _ _ _ _ Hsp) as (l & items & Hlast & _).
    apply last_Some in Hlast as [ps0 ->].
    assert (py_pop (ps0 ++ [l]) = Ok ps0) as Hp.
    { unfold py_pop. destruct (ps0 ++ [l]) eqn:E; [by destruct ps0|].
      by rewrite <- E, removelast_last. }
    rewrite Hp in Hpop. simpl in Hpop.
    destruct fs as [|f fs _] using rev_ind.
    + apply spine_length in Hsp. rewrite length_app in Hsp. simpl in Hsp.
      destruct ps0; [|simpl in Hsp; lia].
      destruct n; simpl in Hpop; congruence.
    + destruct f as [[pre t] p]. apply spine_pop in Hsp as Hsp'.
      destruct (IH _ _ _ _ Hsp' Hpop Hne) as (fs' & top' & Hsp'' & Hpre & Hhd).
      exists fs', top'. split; [done|]. split.
      * rewrite Hpre, frames_preorder_snoc, preorder_forest_app, preorder_forest_inner.
        by rewrite <- !app_assoc.
      * rewrite Hhd. symmetry. apply head_snoc.
        intros ->. apply spine_length in Hsp'. simpl in Hsp'. lia.
Qed.

(** The append succeeds on a stack that is not empty. *)
Lemma append_node_inv b h ps fs top done :
  spine h 0 ps fs top -> head ps = Some root ->
  frames_preorder fs ++ preorder_forest top = map label done ->
  exists st', append_node b h ps = Ok st' /\ builder_inv st' (done ++ [b]).
Proof.
  intros Hsp Hhd Hpre.
  destruct (spine_last _ _ _ _ _ Hsp) as (l & items & Hlast & _ & Hl & Hr).
  unfold append_node. rewrite (py_last_Ok _ _ Hlast). simpl.
  unfold read_list. rewrite Hl. simpl.
  eexists. split; [reflexivity|].
  exists fs, (top ++ [Node (title b) (page b) None]). simpl.
  split; [by apply spine_append|]. split; [done|]. split.
  - rewrite preorder_forest_app, preorder_forest_leaf, app_assoc, Hpre.
    by rewrite map_app.
  - right. eauto.
Qed.

(** The adjustment of the stack either raises an IndexError or leaves a
    stack that, if not empty, is an open path of the same forest. *)
Lemma adjust_parents_inv lv st done :
  builder_inv st done ->
  match adjust_parents lv st with
  | Ok (h, ps) =>
      ps <> [] ->
      exists fs top, spine h 0 ps fs top /\ head ps = Some root /\
                     frames_preorder fs ++ preorder_forest top = map label done
  | Raise e => e = PopFromEmptyList
  end.
Proof.
  intros (fs & top & Hsp & Hhd & Hpre & Htop).
  unfold adjust_parents.
  destruct (lv >? prev_level st) eqn:Hgt.
  - destruct (spine_last _ _ _ _ _ Hsp) as (l & items & Hlast & _ & Hl & Hr).
    rewrite (py_last_Ok _ _ Hlast). simpl. unfold read_list. rewrite Hl. simpl.
    destruct (0 <? Z.of_nat (length items)) eqn:Hlen; [|by eauto].
    apply Z.ltb_lt in Hlen.
    destruct items as [|d0 items0] using rev_ind; [simpl in Hlen; lia|]. clear IHitems0.
    rewrite (py_last_Ok _ d0) by apply last_snoc. simpl.
    destruct (repr_items_snoc_inv _ _ _ _ _ _ Hr) as (pre & n & mid & -> & Hpre' & Hn).
    destruct Htop as [Htop | (pre1 & t & p & Htop)]; [by destruct pre|].
    apply app_inj_tail in Htop as [-> ->].
    inversion Hn as [? ? ? ? ? Hd Hhd0|]; subst.
    unfold read_dict. rewrite Hhd0. simpl. intros _.
    exists (fs ++ [(pre1, t, p)]), []. split; [by eapply spine_push|]. split.
    + rewrite head_snoc; [done|]. intros E. by rewrite E in Hlast.
    + rewrite frames_preorder_snoc, <- Hpre, preorder_forest_app, preorder_forest_leaf.
      simpl. by rewrite app_nil_r.
  - destruct (lv <? prev_level st) eqn:Hlt; [|by eauto].
    destruct (pop_n _ (parents st)) as [ps'|e] eqn:Hpop; simpl.
    + intros Hne.
      destruct (pop_n_spine _ _ _ _ _ _ _ Hsp Hpop Hne) as (fs' & top' & ? & ? & Hh).
      exists fs', top'. split; [done|]. split; congruence.
    + by apply pop_n_Raise in Hpop.
Qed.

Lemma step_inv st b done :
  builder_inv st done ->
  match step st b with
  | Ok st' => builder_inv st' (done ++ [b])
  | Raise e => e = PopFromEmptyList \/ e = ListIndexOutOfRange
  end.
Proof.
  intros Hinv. unfold step.
  pose proof (adjust_parents_inv (level b) st done Hinv) as Hadj.
  destruct (adjust_parents (level b) st) as [[h ps]|e]; simpl; [|auto].
  destruct ps as [|l ps].
  - right. reflexivity.
  - destruct Hadj as (fs & top & Hsp & Hhd & Hpre); [done|].
    destruct (append_node_inv b _ _ _ _ _ Hsp Hhd Hpre) as (st' & -> & Hinv').
    done.
Qed.

Lemma builder_init_inv : builder_inv builder_init [].
Proof.
  exists [], []. simpl. split; [|auto].
  eapply spine_top; [lia | reflexivity |]. simpl. apply repr_nil. lia.
Qed.

Lemma run_inv bs : forall st done,
  builder_inv st done ->
  match run st bs with
  | Ok st' => builder_inv st' (done ++ bs)
  | Raise e => e = PopFromEmptyList \/ e = ListIndexOutOfRange
  end.
Proof.
  induction bs as [|b bs IH]; intros st done Hinv; simpl.
  - by rewrite app_nil_r.
  - pose proof (step_inv st b done Hinv) as Hstep.
    destruct (step st b) as [st'|e]; simpl; [|done].
    specialize (IH st' (done ++ [b]) Hstep).
    by rewrite <- app_assoc in IH.
Qed.

(** The forest read at [root] is the one of the invariant. *)
Lemma read_forest_inv st done :
  builder_inv st done ->
  exists f, read_forest (store st) root = Ok f /\ preorder_forest f = map label done.
Proof.
  intros (fs & top & Hsp & Hhd & Hpre & _).
  destruct (spine_head _ _ _ _ _ Hsp) as (l & ps & E & _).
  rewrite E in Hhd, Hsp. simpl in Hhd. injection Hhd as ->.
  destruct (spine_bottom _ _ _ _ _ _ Hsp) as (items & Hl & Hr).
  exists (plug fs top). split; [|by rewrite plug_preorder].
  unfold read_forest. rewrite Hl.
  rewrite (proj2 (read_repr _) _ _ _ _ Hr); [done|lia].
Qed.

Lemma create_bookmark_tree_cases bs :
  match create_bookmark_tree bs with
  | Ok f => preorder_forest f = map label bs
  | Raise e => e = PopFromEmptyList \/ e = ListIndexOutOfRange
  end.
Proof.
  unfold create_bookmark_tree.
  pose proof (run_inv bs _ _ builder_init_inv) as Hrun.
  destruct (run builder_init bs) as [st|e]; simpl; [|done].
  destruct (read_forest_inv _ _ Hrun) as (f & -> & Hf). done.
Qed.

(** ** Properties of create_bookmark_tree *)

(** The builder raises nothing but an IndexError; in particular every
    reference that it reads is of the expected type. *)
Lemma create_bookmark_tree_errors bs e :
  create_bookmark_tree bs = Raise e ->
  e = PopFromEmptyList \/ e = ListIndexOutOfRange.
Proof.
  intros H. pose proof (create_bookmark_tree_cases bs) as Hc. by rewrite H in Hc.
Qed.

Lemma pop_n_take {A} n : forall l : list A,
  pop_n n l =
    if (n <=? length l)%nat then Ok (take (length l - n) l)
    else Raise PopFromEmptyList.
Proof.
  induction n as [|n IH]; intros l; simpl.
  - by rewrite Nat.sub_0_r, firstn_all.
  - destruct l as [|a l] using rev_ind; [done|]. clear IHl.
    assert (py_pop (l ++ [a]) = Ok l) as ->.
    { unfold py_pop. destruct (l ++ [a]) eqn:E; [by destruct l|].
      by rewrite <- E, removelast_last. }
    simpl. rewrite IH, length_app. simpl.
    replace (length l + 1)%nat with (S (length l)) by lia. simpl.
    destruct (n <=? length l)%nat eqn:Hn; [|done].
    apply Nat.leb_le in Hn.
    rewrite take_app_le by lia. done.
Qed.

(** C1 (the code falls short of the claim). On the levels 1,3,1 the
    builder returns no forest: the descent from 1 to 3 pushes one list,
    the ascent from 3 to 1 pops two, the root list among them, and the
    append to [parents[-1]] raises IndexError. *)
Theorem levels_1_3_1_raises (pa pb pc : Z) :
  create_bookmark_tree [Bookmark 1 "A" pa; Bookmark 3 "B" pb; Bookmark 1 "C" pc]
  = Raise ListIndexOutOfRange.
Proof. reflexivity. Qed.

(** C2. The ascent pops exactly [prev_level - level] entries of the stack,
    whatever its depth: when the stack holds that many the pops succeed,
    also when they leave it empty. On the levels 2,1 the only pop takes
    the root list away and the append to [parents[-1]] that follows is
    out of range. *)
Theorem ascend_pops_unguarded :
  (forall st lv,
     lv < prev_level st ->
     adjust_parents lv st =
       let n := Z.to_nat (prev_level st - lv) in
       if (n <=? length (parents st))%nat
       then Ok (store st, take (length (parents st) - n) (parents st))
       else Raise PopFromEmptyList) /\
  (exists st,
     step builder_init (Bookmark 2 "A" 0) = Ok st /\
     adjust_parents 1 st = Ok (store st, []) /\
     append_node (Bookmark 1 "B" 1) (store st) [] = Raise ListIndexOutOfRange) /\
  create_bookmark_tree levels_2_1 = Raise ListIndexOutOfRange.
Proof.
  split; [|split].
  - intros st lv Hlt. unfold adjust_parents.
    destruct (lv >? prev_level st) eqn:Hgt; [apply Z.gtb_lt in Hgt; lia|].
    destruct (Z.ltb_spec lv (prev_level st)); [|lia].
    rewrite pop_n_take. simpl. by destruct (_ <=? _)%nat.
  - eexists. split; [reflexivity|]. split; reflexivity.
  - reflexivity.
Qed.

Lemma ascend_pops_unguarded_witness :
  1 < prev_level (Builder [OList []] [root] 2) /\
  adjust_parents 1 (Builder [OList []] [root] 2) = Ok ([OList []], []).
Proof.
  split; [simpl; lia|].
  apply (proj1 ascend_pops_unguarded (Builder [OList []] [root] 2) 1). simpl; lia.
Defined.

(** C3. On the levels 1,2,2,1 with the titles A,B,C,D the forest is
    [A{children:[B,C]}, D]. *)
Theorem levels_1_2_2_1_forest (pa pb pc pd : Z) :
  create_bookmark_tree
    [Bookmark 1 "A" pa; Bookmark 2 "B" pb; Bookmark 2 "C" pc; Bookmark 1 "D" pd]
  = Ok [Node "A" pa (Some [Node "B" pb None; Node "C" pc None]); Node "D" pd None].
Proof. reflexivity. Qed.

(** C4. A record of a level above [prev_level] that finds the list on top
    of the stack empty pushes nothing and is appended to that list. So the
    first record of an input goes to the root list whatever its level (a
    level is not negative: it is read by [\d+]); it is the first root of
    the forest returned. *)
Theorem descend_on_empty_top :
  (forall st b top,
     prev_level st < level b ->
     last (parents st) = Some top ->
     store st !! top = Some (OList []) ->
     step st b =
       Ok (Builder (<[top := OList [length (store st)]]>
                      (store st ++ [ODict (title b) (page b) None]))
                   (parents st) (level b))) /\
  (forall b,
     0 <= level b ->
     step builder_init b =
       Ok (Builder [OList [1%nat]; ODict (title b) (page b) None] [root] (level b))) /\
  (forall b rest f,
     create_bookmark_tree (b :: rest) = Ok f ->
     exists c f', f = Node (title b) (page b) c :: f').
Proof.
  split; [|split].
  - intros st b top Hlt Hlast Htop. unfold step, adjust_parents.
    destruct (level b >? prev_level st) eqn:Hgt; [|rewrite Z.gtb_ltb in Hgt; apply Z.ltb_ge in Hgt; lia].
    rewrite (py_last_Ok _ _ Hlast). simpl. unfold read_list. rewrite Htop. simpl.
    unfold append_node. rewrite (py_last_Ok _ _ Hlast). simpl.
    unfold read_list. by rewrite Htop.
  - intros b Hb. unfold step, adjust_parents. simpl.
    destruct (level b >? 0) eqn:Hgt; [reflexivity|].
    destruct (Z.ltb_spec (level b) 0); [lia|]. reflexivity.
  - intros b rest f Hf. pose proof (create_bookmark_tree_cases (b :: rest)) as Hc.
    rewrite Hf in Hc. destruct f as [|[t p c] f']; [done|].
    unfold preorder_forest in Hc. simpl in Hc. injection Hc as -> -> _. eauto.
Qed.

Lemma descend_on_empty_top_witness :
  (prev_level builder_init < level (Bookmark 3 "A" 7) /\
   last (parents builder_init) = Some root /\
   store builder_init !! root = Some (OList []) /\
   step builder_init (Bookmark 3 "A" 7) =
     Ok (Builder [OList [1%nat]; ODict "A" 7 None] [root] 3)) /\
  (0 <= level (Bookmark 0 "A" 7) /\
   step builder_init (Bookmark 0 "A" 7) =
     Ok (Builder [OList [1%nat]; ODict "A" 7 None] [root] 0)) /\
  (create_bookmark_tree [Bookmark 3 "A" 7; Bookmark 3 "B" 8] =
     Ok [Node "A" 7 None; Node "B" 8 None] /\
   exists c f', [Node "A" 7 None; Node "B" 8 None] = Node "A" 7 c :: f').
Proof.
  split; [|split].
  - split; [simpl; lia|]. split; [reflexivity|]. split; [reflexivity|].
    apply (proj1 descend_on_empty_top builder_init (Bookmark 3 "A" 7) root);
      [simpl; lia | reflexivity | reflexivity].
  - split; [simpl; lia|].
    apply (proj1 (proj2 descend_on_empty_top) (Bookmark 0 "A" 7)). simpl; lia.
  - split; [reflexivity|].
    apply (proj2 (proj2 descend_on_empty_top)
             (Bookmark 3 "A" 7) [Bookmark 3 "B" 8]). reflexivity.
Defined.

(** C10. When [create_bookmark_tree] returns, the pre-order traversal of
    the forest visits one node for each record, in the order of the
    input, and the node carries the title and the page of the record (a
    node has no level). *)
Theorem preorder_is_input_order bs f :
  create_bookmark_tree bs = Ok f ->
  preorder_forest f = map label bs /\
  length (preorder_forest f) = length bs.
Proof.
  intros Hf. pose proof (create_bookmark_tree_cases bs) as Hc. rewrite Hf in Hc.
  split; [done|]. by rewrite Hc, length_map.
Qed.

Lemma preorder_is_input_order_witness :
  create_bookmark_tree levels_1_2_2_1 =
    Ok [Node "A" 0 (Some [Node "B" 1 None; Node "C" 2 None]); Node "D" 3 None] /\
  preorder_forest [Node "A" 0 (Some [Node "B" 1 None; Node "C" 2 None]); Node "D" 3 None]
    = map label levels_1_2_2_1.
Proof.
  split; [reflexivity|].
  apply (preorder_is_input_order levels_1_2_2_1). reflexivity.
Defined.

(** ** The pattern *)

Lemma snoc_append acc c m : snoc acc c ++ m = acc ++ c :: m.
Proof. unfold snoc. by rewrite <- app_assoc. Qed.

Lemma all_chars_append cls s1 s2 :
  all_chars cls (s1 ++ s2) = all_chars cls s1 && all_chars cls s2.
Proof.
  induction s1 as [|c s1 IH]; [done|].
  simpl. rewrite IH. by rewrite andb_assoc.
Qed.

(** What a success of [c+] or [c+?] consumed: some characters of the
    class, at least one, before the continuation took over. *)
Lemma plus_greedy_inv {A} cls (k : str -> str -> option A) s : forall acc r,
  plus_greedy cls k acc s = Some r ->
  exists m rest, s = m ++ rest /\ m <> [] /\ all_chars cls m = true /\
                 k (acc ++ m) rest = Some r.
Proof.
  induction s as [|c s IH]; intros acc r H; simpl in H; [done|].
  destruct (cls c) eqn:Hc; [|done].
  destruct (plus_greedy cls k (snoc acc c) s) as [r'|] eqn:E.
  - injection H as <-. destruct (IH _ _ E) as (m & rest & -> & _ & Hm & Hk).
    exists (c :: m), rest. rewrite snoc_append in Hk.
    repeat split; [done | simpl; by rewrite Hc, Hm | done].
  - exists [c], s. repeat split; [done | simpl; by rewrite Hc | done].
Qed.

Lemma plus_lazy_inv {A} cls (k : str -> str -> option A) s : forall acc r,
  plus_lazy cls k acc s = Some r ->
  exists m rest, s = m ++ rest /\ m <> [] /\ all_chars cls m = true /\
                 k (acc ++ m) rest = Some r.
Proof.
  induction s as [|c s IH]; intros acc r H; simpl in H; [done|].
  destruct (cls c) eqn:Hc; [|done].
  destruct (k (snoc acc c) s) as [r'|] eqn:E.
  - injection H as <-.
    exists [c], s. repeat split; [done | simpl; by rewrite Hc | done].
  - destruct (IH _ _ H) as (m & rest & -> & _ & Hm & Hk).
    exists (c :: m), rest. rewrite snoc_append in Hk.
    repeat split; [done | simpl; by rewrite Hc, Hm | done].
Qed.

(** A line that matches is an integer, white space, a title without
    newline, white space and an integer, up to the end of the line. *)
Lemma re_match_sound line g1 g2 g3 :
  re_match line = Some (g1, g2, g3) ->
  exists w1 w2 tail,
    line = g1 ++ w1 ++ g2 ++ w2 ++ g3 ++ tail /\
    g1 <> [] /\ all_chars isdigit g1 = true /\
    w1 <> [] /\ all_chars isspace w1 = true /\
    g2 <> [] /\ all_chars dot g2 = true /\
    w2 <> [] /\ all_chars isspace w2 = true /\
    g3 <> [] /\ all_chars isdigit g3 = true /\
    at_end tail = true.
Proof.
  unfold re_match. intros H.
  apply plus_greedy_inv in H as (m1 & r1 & -> & Hn1 & Hc1 & H).
  apply plus_greedy_inv in H as (w1 & r2 & -> & Hnw1 & Hcw1 & H).
  apply plus_lazy_inv in H as (m2 & r3 & -> & Hn2 & Hc2 & H).
  apply plus_greedy_inv in H as (w2 & r4 & -> & Hnw2 & Hcw2 & H).
  apply plus_greedy_inv in H as (m3 & r5 & -> & Hn3 & Hc3 & H).
  simpl in H. destruct (at_end r5) eqn:He; [|done]. injection H as <- <- <-.
  exists w1, w2, r5. repeat split; done.
Qed.

(** Backtracking finds a way through [c+] and [c+?] when there is one. *)
Lemma plus_greedy_complete {A} cls (k : str -> str -> option A) m : forall acc rest,
  m <> [] -> all_chars cls m = true ->
  is_Some (k (acc ++ m) rest) ->
  is_Some (plus_greedy cls k acc (m ++ rest)).
Proof.
  induction m as [|c m IH]; intros acc rest Hne Hm Hk; [done|].
  simpl in Hm. apply andb_true_iff in Hm as [Hc Hm].
  simpl. rewrite Hc.
  destruct m as [|c' m'].
  - destruct (plus_greedy cls k (snoc acc c) ([] ++ rest)); [done|].
    exact Hk.
  - rewrite <- snoc_append in Hk.
    destruct (IH (snoc acc c) rest ltac:(done) Hm Hk) as [r ->]. done.
Qed.

Lemma plus_lazy_complete {A} cls (k : str -> str -> option A) m : forall acc rest,
  m <> [] -> all_chars cls m = true ->
  is_Some (k (acc ++ m) rest) ->
  is_Some (plus_lazy cls k acc (m ++ rest)).
Proof.
  induction m as [|c m IH]; intros acc rest Hne Hm Hk; [done|].
  simpl in Hm. apply andb_true_iff in Hm as [Hc Hm].
  simpl. rewrite Hc.
  destruct (k (snoc acc c) (m ++ rest)) eqn:E; [done|].
  destruct m as [|c' m'].
  - simpl in E. unfold snoc in E. rewrite E in Hk. by destruct Hk.
  - rewrite <- snoc_append in Hk. by apply IH.
Qed.





Lemma isdigit_not_hash c : isdigit c = true -> (c =? 35)%N = false.
Proof.
  intros H. destruct (N.eqb_spec c 35) as [->|]; [|done]. by vm_compute in H.
Qed.

Lemma re_match_starts_with_digit line r :
  re_match line = Some r -> is_empty line = false /\ startswith_hash line = false.
Proof.
  unfold re_match. destruct line as [|c line]; simpl; [done|].
  destruct (isdigit c) eqn:Hc; [|done]. intros _. split; [done|].
  by apply isdigit_not_hash.
Qed.

Lemma classify_Entry raw g1 g2 g3 :
  classify raw = Entry g1 g2 g3 <-> re_match (strip raw) = Some (g1, g2, g3).
Proof.
  unfold classify. split.
  - destruct (is_empty _); [done|]. destruct (startswith_hash _); [done|].
    destruct (re_match _) as [[[a b] c]|]; [|done]. by intros [= -> -> ->].
  - intros H. destruct (re_match_starts_with_digit _ _ H) as [-> ->]. by rewrite H.
Qed.

(** ** parse_bookmark_file *)



Lemma int_Ok s n :
  int s = Ok n <-> n = int_value s /\ Z.of_nat (length s) <= int_max_str_digits.
Proof.
  unfold int. destruct (Z.gtb_spec (Z.of_nat (length s)) int_max_str_digits).
  - split; [done | lia].
  - split; [by intros [= <-] | by intros [-> _]].
Qed.



Lemma record_of_unreadable page_offset raw :
  readable raw = false -> record_of page_offset raw = None /\ warning_of raw = None.
Proof.
  unfold readable, entry_error, record_of, warning_of.
  destruct (classify raw) as [| |g1 g2 g3|]; try done.
  destruct (int g1); [|done]. by destruct (int g3).
Qed.

Lemma lines_read_readable lines :
  Forall (fun raw => readable raw = true) lines -> lines_read lines = (lines, None).
Proof.
  induction 1 as [|raw lines Hr _ IH]; [done|].
  simpl. unfold readable in Hr. destruct (entry_error raw); [done|]. by rewrite IH.
Qed.

Lemma lines_read_None lines pre :
  lines_read lines = (pre, None) ->
  pre = lines /\ Forall (fun raw => readable raw = true) lines.
Proof.
  revert pre. induction lines as [|raw lines IH]; intros pre H; simpl in H.
  - injection H as <-. by split.
  - destruct (entry_error raw) eqn:E; [done|].
    destruct (lines_read lines) as [pre' e]. injection H as <- ->.
    destruct (IH pre' eq_refl) as [-> Hall]. split; [done|].
    constructor; [|done]. unfold readable. by rewrite E.
Qed.

Lemma lines_read_Some lines pre e :
  lines_read lines = (pre, Some e) ->
  exists raw post, lines = pre ++ raw :: post /\
                   Forall (fun raw => readable raw = true) pre /\
                   entry_error raw = Some e.
Proof.
  revert pre. induction lines as [|raw lines IH]; intros pre H; simpl in H; [done|].
  destruct (entry_error raw) as [e'|] eqn:E.
  - injection H as <- <-. by exists raw, lines.
  - destruct (lines_read lines) as [pre' e'']. injection H as <- ->.
    destruct (IH pre' eq_refl) as (raw' & post & -> & Hall & He).
    exists raw', post. split; [done|]. split; [|done].
    constructor; [|done]. unfold readable. by rewrite E.
Qed.

Lemma omap_cons_Some {A B} (f : A -> option B) x y l :
  f x = Some y -> omap f (x :: l) = y :: omap f l.
Proof. intros H. simpl. by rewrite H. Qed.

Lemma omap_cons_None {A B} (f : A -> option B) x l :
  f x = None -> omap f (x :: l) = omap f l.
Proof. intros H. simpl. by rewrite H. Qed.

(** One turn of the loop, by the kind of the line. *)
Lemma parse_lines_cons page_offset raw rest bookmarks out :
  parse_lines page_offset (raw :: rest) bookmarks out =
    match classify raw with
    | Blank | Comment => parse_lines page_offset rest bookmarks out
    | Malformed =>
        parse_lines page_offset rest bookmarks (out ++ [WarnMalformedLine (strip raw)])
    | Entry g1 g2 g3 =>
        match int g1 with
        | Raise e => (out, Raise e)
        | Ok level =>
            match int g3 with
            | Raise e => (out, Raise e)
            | Ok page =>
                parse_lines page_offset rest
                  (bookmarks ++ [Bookmark level g2 (page + page_offset - 1)]) out
            end
        end
    end.
Proof.
  unfold classify. simpl.
  destruct (is_empty (strip raw)); [done|].
  destruct (startswith_hash (strip raw)); [done|].
  by destruct (re_match (strip raw)) as [[[g1 g2] g3]|].
Qed.

(** The loop as a whole: it goes through the lines before the first one
    that raises. *)
Lemma parse_lines_spec page_offset lines : forall bookmarks out,
  parse_lines page_offset lines bookmarks out =
    (out ++ omap warning_of (lines_read lines).1,
     match (lines_read lines).2 with
     | None => Ok (bookmarks ++ omap (record_of page_offset) (lines_read lines).1)
     | Some e => Raise e
     end).
Proof.
  induction lines as [|raw lines IH]; intros bookmarks out.
  { simpl. by rewrite !app_nil_r. }
  rewrite parse_lines_cons. cbn [lines_read].
  assert (forall x, classify raw = x ->
            entry_error raw = match x with
                              | Entry g1 _ g3 =>
                                  match int g1, int g3 with
                                  | Raise e, _ => Some e
                                  | Ok _, Raise e => Some e
                                  | Ok _, Ok _ => None
                                  end
                              | _ => None
                              end) as Herr
    by (intros x <-; reflexivity).
  assert (forall x, classify raw = x ->
            record_of page_offset raw =
              match x with
              | Entry g1 g2 g3 =>
                  match int g1, int g3 with
                  | Ok level, Ok page => Some (Bookmark level g2 (page + page_offset - 1))
                  | _, _ => None
                  end
              | _ => None
              end) as Hrec
    by (intros x <-; reflexivity).
  assert (forall x, classify raw = x ->
            warning_of raw = match x with
                             | Malformed => Some (WarnMalformedLine (strip raw))
                             | _ => None
                             end) as Hwarn
    by (intros x <-; reflexivity).
  destruct (classify raw) as [| |g1 g2 g3|] eqn:Hk;
    specialize (Herr _ eq_refl); specialize (Hrec _ eq_refl);
    specialize (Hwarn _ eq_refl); simpl in Herr, Hrec, Hwarn.
  - rewrite Herr, IH. destruct (lines_read lines) as [pre e]. simpl fst. simpl snd.
    by rewrite (omap_cons_None _ _ _ Hrec), (omap_cons_None _ _ _ Hwarn).
  - rewrite Herr, IH. destruct (lines_read lines) as [pre e]. simpl fst. simpl snd.
    by rewrite (omap_cons_None _ _ _ Hrec), (omap_cons_None _ _ _ Hwarn).
  - rewrite Herr. destruct (int g1) as [lv|e1]; [|simpl; by rewrite app_nil_r].
    destruct (int g3) as [pg|e3]; [|simpl; by rewrite app_nil_r].
    rewrite IH. destruct (lines_read lines) as [pre e]. simpl fst. simpl snd.
    rewrite (omap_cons_Some _ _ _ _ Hrec), (omap_cons_None _ _ _ Hwarn).
    by rewrite <- app_assoc.
  - rewrite Herr, IH. destruct (lines_read lines) as [pre e]. simpl fst. simpl snd.
    rewrite (omap_cons_None _ _ _ Hrec), (omap_cons_Some _ _ _ _ Hwarn).
    by rewrite <- app_assoc.
Qed.

Lemma parse_bookmark_file_eq f page_offset :
  parse_bookmark_file f page_offset =
    (omap warning_of (lines_read (file_lines f)).1,
     match (lines_read (file_lines f)).2, file_error f with
     | Some e, _ => Raise e
     | None, Some e => Raise e
     | None, None => Ok (omap (record_of page_offset) (lines_read (file_lines f)).1)
     end).
Proof.
  unfold parse_bookmark_file. rewrite parse_lines_spec. simpl.
  destruct (lines_read (file_lines f)).2; [done|]. by destruct (file_error f).
Qed.

Lemma parse_bookmark_file_spec lines page_offset :
  Forall (fun raw => readable raw = true) lines ->
  parse_bookmark_file (TextFile lines None) page_offset =
    (omap warning_of lines, Ok (omap (record_of page_offset) lines)).
Proof.
  intros H. rewrite parse_bookmark_file_eq. simpl. by rewrite (lines_read_readable _ H).
Qed.

Lemma parse_bookmark_file_readable f page_offset ws bs :
  parse_bookmark_file f page_offset = (ws, Ok bs) ->
  Forall (fun raw => readable raw = true) (file_lines f) /\ file_error f = None.
Proof.
  rewrite parse_bookmark_file_eq.
  destruct (lines_read (file_lines f)) as [pre [e|]] eqn:E; simpl; [done|].
  destruct (file_error f); [done|]. intros _.
  by apply lines_read_None in E as [_ H].
Qed.

Lemma parse_bookmark_file_inv f page_offset ws bs :
  parse_bookmark_file f page_offset = (ws, Ok bs) ->
  ws = omap warning_of (file_lines f) /\ bs = omap (record_of page_offset) (file_lines f).
Proof.
  intros H. destruct (parse_bookmark_file_readable _ _ _ _ H) as [Hall _].
  rewrite parse_bookmark_file_eq, (lines_read_readable _ Hall) in H. simpl in H.
  destruct (file_error f); [done|]. by injection H as <- <-.
Qed.

(** The warnings of the parser are those of the lines it went through,
    whatever the outcome. *)
Lemma parse_bookmark_file_warnings f page_offset :
  exists pre, (parse_bookmark_file f page_offset).1 = omap warning_of pre.
Proof. rewrite parse_bookmark_file_eq. by eexists. Qed.

(** The integers of a parsed line are not negative. *)
Lemma digit_value_nonneg c : 0 <= digit_value c.
Proof. unfold digit_value. destruct (decimal_zero c); lia. Qed.

Lemma int_digits_nonneg s : 0 <= int_value s.
Proof.
  unfold int_value.
  assert (forall l acc, 0 <= acc ->
    0 <= fold_left (fun a c => 10 * a + digit_value c) l acc) as Hfold.
  { induction l as [|c l IH]; intros acc Hacc; simpl; [done|].
    apply IH. pose proof (digit_value_nonneg c). lia. }
  apply Hfold. lia.
Qed.

Lemma record_of_inv page_offset raw b :
  record_of page_offset raw = Some b ->
  exists g1 g2 g3, re_match (strip raw) = Some (g1, g2, g3) /\
                   Z.of_nat (length g1) <= int_max_str_digits /\
                   Z.of_nat (length g3) <= int_max_str_digits /\
                   b = Bookmark (int_value g1) g2 (int_value g3 + page_offset - 1).
Proof.
  unfold record_of. destruct (classify raw) as [| |g1 g2 g3|] eqn:E; try done.
  destruct (int g1) as [lv|] eqn:H1; [|done]. destruct (int g3) as [pg|] eqn:H3; [|done].
  intros [= <-]. apply classify_Entry in E.
  apply int_Ok in H1 as [-> H1]. apply int_Ok in H3 as [-> H3]. eauto 10.
Qed.

Lemma record_of_level_nonneg page_offset raw b :
  record_of page_offset raw = Some b -> 0 <= level b.
Proof.
  intros H. apply record_of_inv in H as (g1 & g2 & g3 & _ & _ & _ & ->).
  simpl. apply int_digits_nonneg.
Qed.

Lemma parsed_levels_nonneg f page_offset ws bs :
  parse_bookmark_file f page_offset = (ws, Ok bs) ->
  Forall (fun b => 0 <= level b) bs.
Proof.
  intros H. apply parse_bookmark_file_inv in H as [_ ->].
  apply Forall_forall. intros b Hb.
  apply list_elem_of_omap in Hb as (raw & _ & Hraw).
  by eapply record_of_level_nonneg.
Qed.




Lemma lines_read_cons_None raw rest :
  entry_error raw = None ->
  lines_read (raw :: rest) = (raw :: (lines_read rest).1, (lines_read rest).2).
Proof. intros H. simpl. rewrite H. by destruct (lines_read rest). Qed.


Lemma lines_read_app lines1 lines2 :
  lines_read (lines1 ++ lines2) =
    match lines_read lines1 with
    | (pre, Some e) => (pre, Some e)
    | (pre, None) => ((pre ++ (lines_read lines2).1), (lines_read lines2).2)
    end.
Proof.
  induction lines1 as [|raw lines1 IH]; simpl.
  - by destruct (lines_read lines2).
  - destruct (entry_error raw); [done|]. rewrite IH.
    destruct (lines_read lines1) as [pre [e|]]; [done|]. by destruct (lines_read lines2).
Qed.










(** ** The phases of add_bookmarks_to_pdf *)

Lemma node_ind' (P : node -> Prop) :
  (forall t p, P (Node t p None)) ->
  (forall t p ch, Forall P ch -> P (Node t p (Some ch))) ->
  forall n, P n.
Proof.
  intros Hleaf Hinner. fix IH 1. intros [t p [ch|]]; [|apply Hleaf].
  apply Hinner. induction ch as [|n ch IHch]; constructor; [apply IH | apply IHch].
Qed.

Section Phases.
Context {Page Writer Handle : Type}.
Variable env : environment Page Writer Handle.
Implicit Types w : world Writer Handle.

Lemma for_each_check_page total_pages bookmarks : forall w,
  for_each (check_page total_pages) bookmarks w =
    (World (stdout w ++ range_warnings total_pages bookmarks)
           (outline_calls w) (output w), Ok tt).
Proof.
  induction bookmarks as [|b bs IH]; intros w; simpl.
  - rewrite app_nil_r. by destruct w.
  - unfold bindM, check_page, range_warnings. simpl.
    destruct (out_of_range total_pages b); simpl.
    + rewrite IH. simpl. by rewrite <- app_assoc.
    + by rewrite IH.
Qed.

(** The copy of the pages prints nothing and calls nothing. *)
Lemma for_each_copy_page pages : forall wr w,
  fst (for_each_w (copy_page env) pages wr w) = w.
Proof.
  induction pages as [|pg pages IH]; intros wr w; simpl; [done|].
  unfold bindM, copy_page, lift at 1.
  destruct (add_page env wr pg) as [wr'|e]; [apply IH | done].
Qed.

(** Under a node with children the attachment is the recursive call of
    [add_bookmarks_recursively] with the handle of the node. *)
Lemma attach_children total_pages parent t p ch wr :
  attach env total_pages parent (Node t p (Some ch)) wr =
    let! (new_parent, wr') :=
      call_add_outline_item env wr t (clamp total_pages p) parent in
    add_bookmarks_recursively env total_pages new_parent ch wr'.
Proof. reflexivity. Qed.

Lemma for_each_attach total_pages parent (f : forest) :
  Forall (fun n => forall parent wr w,
            attaches total_pages (preorder n) w (attach env total_pages parent n wr w)) f ->
  forall wr w,
    attaches total_pages (preorder_forest f) w
             (for_each_w (attach env total_pages parent) f wr w).
Proof.
  induction 1 as [|n f Hn _ IH]; intros wr w.
  - simpl. split; [done|]. split; [done|]. exists []. rewrite app_nil_r.
    split; [done|]. split; [apply prefix_nil | done].
  - simpl. unfold bindM.
    destruct (Hn parent wr w) as (Hs & Ho & cs & Hc & Hp & Heq).
    destruct (attach env total_pages parent n wr w) as [w1 [wr1|e]]; simpl in *.
    + destruct (IH wr1 w1) as (Hs' & Ho' & cs' & Hc' & Hp' & Heq').
      split; [congruence|]. split; [congruence|].
      exists (cs ++ cs'). rewrite Hc', Hc, <- app_assoc. split; [done|].
      unfold preorder_forest in *. simpl.
      rewrite !map_app, (Heq wr1 eq_refl). split.
      * by apply prefix_app.
      * intros wr' Hr. by rewrite (Heq' wr' Hr).
    + split; [done|]. split; [done|]. exists cs. split; [done|]. split; [|done].
      unfold preorder_forest. simpl. rewrite map_app. by apply prefix_app_r.
Qed.

Lemma attach_attaches total_pages n : forall parent wr w,
  attaches total_pages (preorder n) w (attach env total_pages parent n wr w).
Proof.
  induction n as [t p | t p ch IH] using node_ind'; intros parent wr w.
  - simpl. unfold bindM, call_add_outline_item.
    destruct (add_outline_item env wr t _ parent) as [[hd wr']|e]; simpl;
      (split; [done|]; split; [done|];
       exists [(t, clamp total_pages p, parent)]; split; [done|];
       split; [by exists [] | by intros]).
  - simpl. unfold bindM, call_add_outline_item.
    destruct (add_outline_item env wr t _ parent) as [[hd wr']|e]; simpl.
    + pose proof (for_each_attach total_pages (Some hd) ch IH wr'
        (World (stdout w) (outline_calls w ++ [(t, clamp total_pages p, parent)]) (output w)))
        as (Hs & Ho & cs & Hc & Hp & Heq).
      split; [done|]. split; [done|].
      exists ((t, clamp total_pages p, parent) :: cs).
      rewrite Hc. simpl. rewrite <- app_assoc. split; [done|]. split.
      * by apply prefix_cons.
      * intros wr'' Hr. simpl. f_equal. by apply (Heq wr'').
    + split; [done|]. split; [done|].
      exists [(t, clamp total_pages p, parent)]. split; [done|]. split; [|done].
      simpl. apply prefix_cons, prefix_nil.
Qed.

Lemma attach_forest total_pages parent f wr w :
  attaches total_pages (preorder_forest f) w
           (for_each_w (attach env total_pages parent) f wr w).
Proof.
  apply for_each_attach. apply Forall_forall. intros n _. apply attach_attaches.
Qed.

End Phases.

Section Runs.
Context {Page Writer Handle : Type}.
Variable env : environment Page Writer Handle.
Variables input_pdf output_pdf bookmark_file : str.
Variable page_offset : Z.
Implicit Types w : world Writer Handle.

Lemma bindM_run {A B} (m : M Writer Handle A) (k : A -> M Writer Handle B) w :
  bindM m k w =
    match m w with
    | (w', Ok a) => k a w'
    | (w', Raise e) => (w', Raise e)
    end.
Proof. reflexivity. Qed.

(** The handler: what the body returns is returned, what it raises is
    printed and turned into [False]. *)
Lemma add_bookmarks_to_pdf_handler :
  add_bookmarks_to_pdf env input_pdf output_pdf bookmark_file page_offset =
    match add_bookmarks_body env input_pdf output_pdf bookmark_file page_offset world_init with
    | (w, Ok b) => (w, b)
    | (w, Raise e) =>
        (World (stdout w ++ [ErrException e]) (outline_calls w) (output w), false)
    end.
Proof. reflexivity. Qed.

Lemma body_parse_raise ws e :
  parse_bookmark_file (open_text env bookmark_file) page_offset = (ws, Raise e) ->
  add_bookmarks_body env input_pdf output_pdf bookmark_file page_offset world_init =
    (World ws [] Untouched, Raise e).
Proof. intros H. unfold add_bookmarks_body. by rewrite H. Qed.

Lemma body_empty ws :
  parse_bookmark_file (open_text env bookmark_file) page_offset = (ws, Ok []) ->
  add_bookmarks_body env input_pdf output_pdf bookmark_file page_offset world_init =
    (World (ws ++ [ErrEmptyBookmarks]) [] Untouched, Ok false).
Proof. intros H. unfold add_bookmarks_body. by rewrite H. Qed.

Lemma body_tree_raise ws bookmarks e :
  parse_bookmark_file (open_text env bookmark_file) page_offset = (ws, Ok bookmarks) ->
  create_bookmark_tree bookmarks = Raise e ->
  add_bookmarks_body env input_pdf output_pdf bookmark_file page_offset world_init =
    (World ws [] Untouched, Raise e).
Proof.
  intros H Ht. unfold add_bookmarks_body. rewrite H.
  destruct bookmarks as [|b bs]; [done|].
  unfold bindM, print_all, lift. simpl. by rewrite Ht.
Qed.

Lemma body_reader_raise ws bookmarks f e :
  parse_bookmark_file (open_text env bookmark_file) page_offset = (ws, Ok bookmarks) ->
  bookmarks <> [] ->
  create_bookmark_tree bookmarks = Ok f ->
  PdfReader env input_pdf = Raise e ->
  add_bookmarks_body env input_pdf output_pdf bookmark_file page_offset world_init =
    (World ws [] Untouched, Raise e).
Proof.
  intros H Hne Ht Hr. unfold add_bookmarks_body. rewrite H.
  destruct bookmarks as [|b bs]; [done|].
  unfold bindM, print_all, lift. simpl. by rewrite Ht, Hr.
Qed.

(** The body once the records, the tree and the pages are there. *)
Lemma body_reached ws bookmarks f pages :
  parse_bookmark_file (open_text env bookmark_file) page_offset = (ws, Ok bookmarks) ->
  bookmarks <> [] ->
  create_bookmark_tree bookmarks = Ok f ->
  PdfReader env input_pdf = Ok pages ->
  let total_pages := Z.of_nat (length pages) in
  add_bookmarks_body env input_pdf output_pdf bookmark_file page_offset world_init =
    (let! writer := for_each_w (copy_page env) pages (PdfWriter env) in
     let! writer := for_each_w (attach env total_pages None) f writer in
     let! _ := save env output_pdf writer in
     let! _ := print (Success output_pdf) in
     let! _ := (if page_offset =? 0 then ret tt else print (OffsetApplied page_offset)) in
     ret true)
    (World (ws ++ range_warnings total_pages bookmarks) [] Untouched).
Proof.
  intros H Hne Ht Hr total_pages. unfold add_bookmarks_body. rewrite H.
  destruct bookmarks as [|b bs]; [done|].
  unfold bindM at 1 2 3 4 5. unfold print_all, lift. simpl stdout. simpl outline_calls.
  simpl output. rewrite Ht, Hr.
  fold total_pages. unfold bindM at 1. rewrite for_each_check_page. reflexivity.
Qed.

Lemma save_cases wr w :
  save env output_pdf wr w =
    match open_wb env output_pdf, write env wr with
    | Some e, _ => (w, Raise e)
    | None, Some e => (World (stdout w) (outline_calls w) Truncated, Raise e)
    | None, None => (World (stdout w) (outline_calls w) (Written wr), Ok tt)
    end.
Proof. unfold save. by destruct (open_wb env output_pdf), (write env wr). Qed.

Lemma filter_malformed_warnings lines :
  List.filter is_page_warning (omap warning_of lines) = [].
Proof.
  induction lines as [|raw lines IH]; simpl; [done|].
  unfold warning_of at 1. by destruct (classify raw).
Qed.

Lemma filter_range_warnings total_pages bookmarks :
  List.filter is_page_warning (range_warnings total_pages bookmarks) =
  range_warnings total_pages bookmarks.
Proof.
  unfold range_warnings. induction bookmarks as [|b bs IH]; simpl; [done|].
  destruct (out_of_range total_pages b); simpl; by rewrite IH.
Qed.

(** A run that reaches the check of the pages: its output and calls. *)
Lemma run_reached ws bookmarks f pages :
  parse_bookmark_file (open_text env bookmark_file) page_offset = (ws, Ok bookmarks) ->
  bookmarks <> [] ->
  create_bookmark_tree bookmarks = Ok f ->
  PdfReader env input_pdf = Ok pages ->
  let total_pages := Z.of_nat (length pages) in
  let run := add_bookmarks_to_pdf env input_pdf output_pdf bookmark_file page_offset in
  (exists tail, stdout (fst run) = ws ++ range_warnings total_pages bookmarks ++ tail /\
                List.filter is_page_warning tail = []) /\
  map fst (outline_calls (fst run)) `prefix_of` map (target total_pages) (preorder_forest f) /\
  (snd run = true ->
     map fst (outline_calls (fst run)) = map (target total_pages) (preorder_forest f) /\
     exists wr, output (fst run) = Written wr).
Proof.
  intros H Hne Ht Hr total_pages run. subst run.
  rewrite add_bookmarks_to_pdf_handler, (body_reached _ _ _ _ H Hne Ht Hr).
  fold total_pages.
  set (w1 := World (ws ++ range_warnings total_pages bookmarks) [] Untouched).
  rewrite bindM_run.
  pose proof (for_each_copy_page env pages (PdfWriter env) w1) as Hcopy.
  destruct (for_each_w (copy_page env) pages (PdfWriter env) w1) as [w1' [wr|e]];
    simpl in Hcopy; subst w1'.
  2:{ simpl. split; [exists [ErrException e]; by rewrite <- app_assoc|].
      split; [apply prefix_nil | done]. }
  rewrite bindM_run.
  pose proof (attach_forest env total_pages None f wr w1) as (Hs & Ho & cs & Hc & Hp & Heq).
  destruct (for_each_w (attach env total_pages None) f wr w1) as [w2 [wr'|e]];
    simpl in Hs, Ho, Hc, Heq.
  2:{ simpl. rewrite Hs, Hc. simpl. split; [exists [ErrException e]; by rewrite <- app_assoc|].
      split; [done | done]. }
  specialize (Heq wr' eq_refl).
  rewrite bindM_run, save_cases.
  destruct (open_wb env output_pdf) as [e|]; [|destruct (write env wr') as [e|]].
  - simpl. rewrite Hs, Hc. simpl. split; [exists [ErrException e]; by rewrite <- app_assoc|].
    split; [done | done].
  - simpl. rewrite Hs, Hc. simpl. split; [exists [ErrException e]; by rewrite <- app_assoc|].
    split; [done | done].
  - rewrite !bindM_run. unfold print, ret. simpl. rewrite Hs, Hc. simpl.
    destruct (page_offset =? 0); simpl.
    + split; [exists [Success output_pdf]; by rewrite <- app_assoc|].
      split; [done|]. intros _. split; [done|]. eauto.
    + split; [exists [Success output_pdf; OffsetApplied page_offset];
              by rewrite <- !app_assoc|].
      split; [done|]. intros _. split; [done|]. eauto.
Qed.

End Runs.

(** ** Properties of add_bookmarks_to_pdf *)



Lemma targets_of_labels total_pages bookmarks :
  map (target total_pages) (map label bookmarks) =
  map (fun b => (title b, clamp total_pages (page b))) bookmarks.
Proof. by rewrite map_map. Qed.

Lemma blank_and_comment_lines lines page_offset :
  Forall (fun raw => is_empty (strip raw) = true \/ startswith_hash (strip raw) = true) lines ->
  parse_bookmark_file (TextFile lines None) page_offset = ([], Ok []).
Proof.
  intros H.
  assert (Forall (fun raw => classify raw = Blank \/ classify raw = Comment) lines) as Hk.
  { eapply Forall_impl; [exact H|]. intros raw Hraw. cbv beta in Hraw. unfold classify.
    destruct (is_empty (strip raw)); [by left|].
    destruct Hraw as [Hraw|Hraw]; [done | rewrite Hraw; by right]. }
  clear H. rewrite parse_bookmark_file_spec.
  - induction Hk as [|raw lines Hraw _ IH]; [done|].
    injection IH as IHw IHr.
    rewrite (omap_cons_None warning_of), (omap_cons_None (record_of page_offset)).
    + by rewrite IHw, IHr.
    + unfold record_of. by destruct Hraw as [-> | ->].
    + unfold warning_of. by destruct Hraw as [-> | ->].
  - eapply Forall_impl; [exact Hk|]. intros raw Hraw. cbv beta in Hraw.
    unfold readable, entry_error. by destruct Hraw as [-> | ->].
Qed.



(** C6. When the parse gives no record the operation prints that the
    bookmark data are empty and returns [False]; the output file is not
    opened and nothing is attached. A file of blank lines and comments
    gives no record (and no warning). *)
Theorem empty_bookmarks_abort :
  (forall (Page Writer Handle : Type) (env : environment Page Writer Handle)
          input_pdf output_pdf bookmark_file page_offset ws,
     parse_bookmark_file (open_text env bookmark_file) page_offset = (ws, Ok []) ->
     add_bookmarks_to_pdf env input_pdf output_pdf bookmark_file page_offset =
       (World (ws ++ [ErrEmptyBookmarks]) [] Untouched, false)) /\
  (forall lines page_offset,
     Forall (fun raw => is_empty (strip raw) = true \/ startswith_hash (strip raw) = true)
            lines ->
     parse_bookmark_file (TextFile lines None) page_offset = ([], Ok [])).
Proof.
  split.
  - intros Page Writer Handle env input_pdf output_pdf bookmark_file page_offset ws H.
    by rewrite add_bookmarks_to_pdf_handler, (body_empty _ _ _ _ _ _ H).
  - apply blank_and_comment_lines.
Qed.

Lemma empty_bookmarks_abort_witness :
  parse_bookmark_file a_file_of_comments 0 = ([], Ok []) /\
  add_bookmarks_to_pdf (simple_env a_file_of_comments 10) "in.pdf" "out.pdf" "toc.txt" 0
    = (World [ErrEmptyBookmarks] [] Untouched, false).
Proof.
  assert (parse_bookmark_file a_file_of_comments 0 = ([], Ok [])) as Hp.
  { apply (proj2 empty_bookmarks_abort).
    repeat (constructor; [vm_compute; auto|]). constructor. }
  split; [exact Hp|].
  exact (proj1 empty_bookmarks_abort nat simple_writer nat
           (simple_env a_file_of_comments 10) "in.pdf" "out.pdf" "toc.txt" 0 [] Hp).
Defined.

Section Failures.
Context {Page Writer Handle : Type}.
Variable env : environment Page Writer Handle.
Variables input_pdf output_pdf bookmark_file : str.
Variable page_offset : Z.

(** The body returns [False] only for empty bookmark data. *)
Lemma body_returns_false w :
  add_bookmarks_body env input_pdf output_pdf bookmark_file page_offset world_init
    = (w, Ok false) ->
  last (stdout w) = Some ErrEmptyBookmarks.
Proof.
  destruct (parse_bookmark_file (open_text env bookmark_file) page_offset)
    as [ws [bookmarks|e]] eqn:Hp.
  2:{ by rewrite (body_parse_raise _ _ _ _ _ _ _ Hp). }
  destruct bookmarks as [|b bs].
  { rewrite (body_empty _ _ _ _ _ _ Hp). intros [= <-]. apply last_snoc. }
  destruct (create_bookmark_tree (b :: bs)) as [f|e] eqn:Ht.
  2:{ by rewrite (body_tree_raise _ _ _ _ _ _ _ _ Hp Ht). }
  destruct (PdfReader env input_pdf) as [pages|e] eqn:Hr.
  2:{ by rewrite (body_reader_raise _ _ _ _ _ _ _ _ _ Hp ltac:(done) Ht Hr). }
  rewrite (body_reached _ _ _ _ _ _ _ _ _ Hp ltac:(done) Ht Hr).
  rewrite bindM_run. destruct (for_each_w (copy_page env) _ _ _) as [w1 [wr|e]]; [|done].
  rewrite bindM_run. destruct (for_each_w (attach env _ None) _ _ _) as [w2 [wr'|e]]; [|done].
  rewrite bindM_run, save_cases.
  destruct (open_wb env output_pdf); [done|]. destruct (write env wr'); [done|].
  rewrite !bindM_run. unfold print, ret. by destruct (page_offset =? 0).
Qed.

End Failures.

(** C9. The operation returns a boolean on every input and in every
    environment. What the body of the [try] raises, at whatever stage
    (the parse, the tree, the reader, the copy of the pages, the
    attachment, the writing), is caught: the message of the exception is
    printed and [False] is returned. When [False] is returned a message
    was printed last. *)
Theorem no_exception_escapes {Page Writer Handle : Type}
    (env : environment Page Writer Handle)
    (input_pdf output_pdf bookmark_file : str) (page_offset : Z) :
  let run := add_bookmarks_to_pdf env input_pdf output_pdf bookmark_file page_offset in
  let body := add_bookmarks_body env input_pdf output_pdf bookmark_file page_offset world_init in
  let failed := fun (w : world Writer Handle) e =>
    (World (stdout w ++ [ErrException e]) (outline_calls w) (output w), false) in
  (forall b, snd body = Ok b -> run = (fst body, b)) /\
  (forall e, snd body = Raise e -> run = failed (fst body) e) /\
  (snd run = false ->
     last (stdout (fst run)) = Some ErrEmptyBookmarks \/
     exists e, last (stdout (fst run)) = Some (ErrException e)) /\
  (forall ws e,
     parse_bookmark_file (open_text env bookmark_file) page_offset = (ws, Raise e) ->
     run = failed (World ws [] Untouched) e) /\
  (forall ws bookmarks e,
     parse_bookmark_file (open_text env bookmark_file) page_offset = (ws, Ok bookmarks) ->
     create_bookmark_tree bookmarks = Raise e ->
     run = failed (World ws [] Untouched) e) /\
  (forall ws bookmarks f e,
     parse_bookmark_file (open_text env bookmark_file) page_offset = (ws, Ok bookmarks) ->
     bookmarks <> [] ->
     create_bookmark_tree bookmarks = Ok f ->
     PdfReader env input_pdf = Raise e ->
     run = failed (World ws [] Untouched) e) /\
  (forall ws bookmarks f pages,
     parse_bookmark_file (open_text env bookmark_file) page_offset = (ws, Ok bookmarks) ->
     bookmarks <> [] ->
     create_bookmark_tree bookmarks = Ok f ->
     PdfReader env input_pdf = Ok pages ->
     let total_pages := Z.of_nat (length pages) in
     let w1 := World (ws ++ range_warnings total_pages bookmarks) [] Untouched in
     (forall w e,
        for_each_w (copy_page env) pages (PdfWriter env) w1 = (w, Raise e) ->
        run = failed w1 e) /\
     (forall w wr w2 e,
        for_each_w (copy_page env) pages (PdfWriter env) w1 = (w, Ok wr) ->
        for_each_w (attach env total_pages None) f wr w1 = (w2, Raise e) ->
        run = failed w2 e) /\
     (forall w wr w2 wr' w3 e,
        for_each_w (copy_page env) pages (PdfWriter env) w1 = (w, Ok wr) ->
        for_each_w (attach env total_pages None) f wr w1 = (w2, Ok wr') ->
        save env output_pdf wr' w2 = (w3, Raise e) ->
        run = failed w3 e)).
Proof.
  intros run body failed. subst run body failed. cbv beta.
  rewrite add_bookmarks_to_pdf_handler.
  split; [|split; [|split; [|split; [|split; [|split]]]]].
  - intros b Hb. destruct (add_bookmarks_body _ _ _ _ _ _) as [w r]. simpl in *. by subst r.
  - intros e He. destruct (add_bookmarks_body _ _ _ _ _ _) as [w r]. simpl in *. by subst r.
  - destruct (add_bookmarks_body _ _ _ _ _ _) as [w [b|e]] eqn:Hbody; simpl.
    + intros ->. left. by eapply body_returns_false.
    + intros _. right. exists e. apply last_snoc.
  - intros ws e Hp. by rewrite (body_parse_raise _ _ _ _ _ _ _ Hp).
  - intros ws bookmarks e Hp Ht. by rewrite (body_tree_raise _ _ _ _ _ _ _ _ Hp Ht).
  - intros ws bookmarks f e Hp Hne Ht Hr.
    by rewrite (body_reader_raise _ _ _ _ _ _ _ _ _ Hp Hne Ht Hr).
  - intros ws bookmarks f pages Hp Hne Ht Hr total_pages w1.
    rewrite (body_reached _ _ _ _ _ _ _ _ _ Hp Hne Ht Hr).
    fold total_pages. fold w1.
    split; [|split].
    + intros w e Hc. pose proof (for_each_copy_page env pages (PdfWriter env) w1) as Hw.
      rewrite bindM_run, Hc. rewrite Hc in Hw. simpl in Hw. by subst w.
    + intros w wr w2 e Hc Ha. pose proof (for_each_copy_page env pages (PdfWriter env) w1) as Hw.
      rewrite bindM_run, Hc. rewrite Hc in Hw. simpl in Hw. subst w.
      by rewrite bindM_run, Ha.
    + intros w wr w2 wr' w3 e Hc Ha Hs.
      pose proof (for_each_copy_page env pages (PdfWriter env) w1) as Hw.
      rewrite bindM_run, Hc. rewrite Hc in Hw. simpl in Hw. subst w.
      by rewrite bindM_run, Ha, bindM_run, Hs.
Qed.

Lemma no_exception_escapes_witness :
  (* the parse *)
  add_bookmarks_to_pdf (simple_env unreadable_file 10) "in.pdf" "out.pdf" "toc.txt" 0 =
    (World [WarnMalformedLine "oops"; ErrException (External "invalid start byte")]
           [] Untouched, false) /\
  (* the tree *)
  add_bookmarks_to_pdf (simple_env skipping_file 10) "in.pdf" "out.pdf" "toc.txt" 0 =
    (World [ErrException ListIndexOutOfRange] [] Untouched, false) /\
  (* the reader *)
  add_bookmarks_to_pdf
    (test_env short_file 10 (Faults (Some (External "not a PDF")) None None None None))
    "in.pdf" "out.pdf" "toc.txt" 0 =
    (World [ErrException (External "not a PDF")] [] Untouched, false) /\
  (* the copy of the pages *)
  add_bookmarks_to_pdf
    (test_env short_file 10 (Faults None (Some (External "bad page")) None None None))
    "in.pdf" "out.pdf" "toc.txt" 0 =
    (World [WarnPageOutOfRange "Part one" 12 10; ErrException (External "bad page")]
           [] Untouched, false) /\
  (* the attachment *)
  add_bookmarks_to_pdf
    (test_env short_file 10 (Faults None None (Some (External "no outline")) None None))
    "in.pdf" "out.pdf" "toc.txt" 0 =
    (World [WarnPageOutOfRange "Part one" 12 10; ErrException (External "no outline")]
           [("Intro", 0, None)] Untouched, false) /\
  (* the writing *)
  add_bookmarks_to_pdf
    (test_env short_file 10 (Faults None None None None (Some (External "disk full"))))
    "in.pdf" "out.pdf" "toc.txt" 0 =
    (World [WarnPageOutOfRange "Part one" 12 10; ErrException (External "disk full")]
           [("Intro", 0, None); ("Part one", 9, Some 0%nat)] Truncated, false).
Proof.
  set (bs := [Bookmark 1 "Intro" 0; Bookmark 2 "Part one" 11]).
  set (f := [Node "Intro" 0 (Some [Node "Part one" 11 None])]).
  split; [|split; [|split; [|split; [|split]]]].
  - exact (proj1 (proj2 (proj2 (proj2
             (no_exception_escapes (simple_env unreadable_file 10)
                "in.pdf" "out.pdf" "toc.txt" 0))))
             [WarnMalformedLine "oops"] (External "invalid start byte")
             ltac:(vm_compute; reflexivity)).
  - exact (proj1 (proj2 (proj2 (proj2 (proj2
             (no_exception_escapes (simple_env skipping_file 10)
                "in.pdf" "out.pdf" "toc.txt" 0)))))
             [] levels_1_3_1 ListIndexOutOfRange
             ltac:(vm_compute; reflexivity) ltac:(vm_compute; reflexivity)).
  - exact (proj1 (proj2 (proj2 (proj2 (proj2 (proj2
             (no_exception_escapes
                (test_env short_file 10 (Faults (Some (External "not a PDF")) None None None None))
                "in.pdf" "out.pdf" "toc.txt" 0))))))
             [] bs f (External "not a PDF")
             ltac:(vm_compute; reflexivity) ltac:(discriminate)
             ltac:(vm_compute; reflexivity) ltac:(reflexivity)).
  - exact (proj1 (proj2 (proj2 (proj2 (proj2 (proj2 (proj2
             (no_exception_escapes
                (test_env short_file 10 (Faults None (Some (External "bad page")) None None None))
                "in.pdf" "out.pdf" "toc.txt" 0))))))
             [] bs f (seq 0 10)
             ltac:(vm_compute; reflexivity) ltac:(discriminate)
             ltac:(vm_compute; reflexivity) ltac:(reflexivity))
             _ (External "bad page") ltac:(vm_compute; reflexivity)).
  - exact (proj1 (proj2 (proj2 (proj2 (proj2 (proj2 (proj2 (proj2
             (no_exception_escapes
                (test_env short_file 10 (Faults None None (Some (External "no outline")) None None))
                "in.pdf" "out.pdf" "toc.txt" 0))))))
             [] bs f (seq 0 10)
             ltac:(vm_compute; reflexivity) ltac:(discriminate)
             ltac:(vm_compute; reflexivity) ltac:(reflexivity)))
             _ _ _ (External "no outline")
             ltac:(vm_compute; reflexivity) ltac:(vm_compute; reflexivity)).
  - exact (proj2 (proj2 (proj2 (proj2 (proj2 (proj2 (proj2 (proj2
             (no_exception_escapes
                (test_env short_file 10 (Faults None None None None (Some (External "disk full"))))
                "in.pdf" "out.pdf" "toc.txt" 0))))))
             [] bs f (seq 0 10)
             ltac:(vm_compute; reflexivity) ltac:(discriminate)
             ltac:(vm_compute; reflexivity) ltac:(reflexivity)))
             _ _ _ _ _ (External "disk full")
             ltac:(vm_compute; reflexivity) ltac:(vm_compute; reflexivity)
             ltac:(vm_compute; reflexivity)).
Defined.

(** ** The depth of the nodes *)

Lemma forest_depths_app k f g :
  forest_depths k (f ++ g) = forest_depths k f ++ forest_depths k g.
Proof. apply flat_map_app. Qed.

Lemma forest_depths_leaf k t p : forest_depths k [Node t p None] = [(t, p, k)].
Proof. reflexivity. Qed.

Lemma forest_depths_inner k t p ch :
  forest_depths k [Node t p (Some ch)] = (t, p, k) :: forest_depths (S k) ch.
Proof. unfold forest_depths. simpl. by rewrite app_nil_r. Qed.

Lemma frames_depths_snoc fs : forall k pre t p,
  frames_depths k (fs ++ [(pre, t, p)]) =
  frames_depths k fs ++ forest_depths (k + length fs) pre ++ [(t, p, (k + length fs)%nat)].
Proof.
  induction fs as [|[[pre0 t0] p0] fs IH]; intros k pre t p; simpl.
  - by rewrite Nat.add_0_r.
  - rewrite IH. replace (S k + length fs)%nat with (k + S (length fs))%nat by lia.
    by rewrite <- !app_assoc.
Qed.

Lemma plug_depths fs : forall k top,
  forest_depths k (plug fs top) =
  frames_depths k fs ++ forest_depths (k + length fs) top.
Proof.
  induction fs as [|[[pre t] p] fs IH]; intros k top; simpl.
  - by rewrite Nat.add_0_r.
  - rewrite forest_depths_app, forest_depths_inner, IH.
    replace (S k + length fs)%nat with (k + S (length fs))%nat by lia.
    by rewrite <- app_assoc.
Qed.

Lemma proper_snoc_inner pre t p top :
  forallb proper pre = true -> forallb proper top = true -> top <> [] ->
  forallb proper (pre ++ [Node t p (Some top)]) = true.
Proof.
  intros Hpre Htop Hne. rewrite forallb_app, Hpre. simpl.
  destruct top; [done|]. by rewrite Htop.
Qed.

Lemma plug_proper fs : forall top,
  Forall (fun fr : frame => forallb proper fr.1.1 = true) fs ->
  forallb proper top = true -> (fs <> [] -> top <> []) ->
  forallb proper (plug fs top) = true.
Proof.
  induction fs as [|[[pre t] p] fs IH]; intros top Hfs Htop Hne; simpl; [done|].
  inversion Hfs as [|? ? Hpre Hfs']; subst. simpl in Hpre.
  apply proper_snoc_inner; [done | |].
  - apply IH; [done | done |]. intros _. by apply Hne.
  - destruct fs as [|[[pre' t'] p'] fs']; simpl.
    + by apply Hne.
    + by destruct pre'.
Qed.

Lemma repr_items_snoc_inv_r h lo hi items pre n :
  repr_items h lo hi items (pre ++ [n]) ->
  exists ds d mid, items = ds ++ [d] /\ repr_items h lo mid ds pre /\ repr_node h mid hi d n.
Proof.
  intros Hr. apply repr_items_length in Hr as Hlen.
  destruct items as [|d items _] using rev_ind.
  { rewrite length_app in Hlen. simpl in Hlen. lia. }
  destruct (repr_items_snoc_inv _ _ _ _ _ _ Hr) as (pre' & n' & mid & E & Hpre & Hn).
  apply app_inj_tail in E as [<- <-]. eauto 10.
Qed.

Lemma pop_n_length {A} n (l l' : list A) :
  pop_n n l = Ok l' -> (n <= length l)%nat /\ length l' = (length l - n)%nat.
Proof.
  rewrite pop_n_take. destruct (n <=? length l)%nat eqn:E; [|done].
  apply Nat.leb_le in E. intros [= <-]. split; [done|]. rewrite length_take. lia.
Qed.

(** The ascent, with depths. *)
Lemma pop_n_spine_depths h lo n : forall ps fs top ps',
  spine h lo ps fs top ->
  top <> [] -> forallb proper top = true ->
  Forall (fun fr : frame => forallb proper fr.1.1 = true) fs ->
  pop_n n ps = Ok ps' -> ps' <> [] ->
  exists fs' top',
    spine h lo ps' fs' top' /\
    frames_depths 0 fs' ++ forest_depths (length fs') top' =
      frames_depths 0 fs ++ forest_depths (length fs) top /\
    head ps' = head ps /\
    top' <> [] /\ forallb proper top' = true /\
    Forall (fun fr : frame => forallb proper fr.1.1 = true) fs'.
Proof.
  induction n as [|n IH]; intros ps fs top ps' Hsp Hne Htop Hfs Hpop Hne'; simpl in Hpop.
  - injection Hpop as <-. eauto 10.
  - destruct (spine_last _ _ _ _ _ Hsp) as (l & items & Hlast & _).
    apply last_Some in Hlast as [ps0 ->].
    assert (py_pop (ps0 ++ [l]) = Ok ps0) as Hp.
    { unfold py_pop. destruct (ps0 ++ [l]) eqn:E; [by destruct ps0|].
      by rewrite <- E, removelast_last. }
    rewrite Hp in Hpop. simpl in Hpop.
    destruct fs as [|f fs _] using rev_ind.
    + apply spine_length in Hsp. rewrite length_app in Hsp. simpl in Hsp.
      destruct ps0; [|simpl in Hsp; lia].
      destruct n; simpl in Hpop; congruence.
    + destruct f as [[pre t] p]. apply spine_pop in Hsp as Hsp'.
      apply Forall_app in Hfs as [Hfs Hf].
      inversion Hf as [|? ? Hpre _]; subst. simpl in Hpre.
      destruct (IH ps0 fs _ ps' Hsp') as (fs' & top' & Hsp'' & Hd & Hhd & Hn' & Hp' & Hf');
        [by destruct pre | by apply proper_snoc_inner | done | done | done |].
      exists fs', top'. split; [done|]. split; [|split; [|done]].
      * rewrite Hd, frames_depths_snoc, forest_depths_app, forest_depths_inner.
        rewrite length_app. simpl.
        replace (length fs + 1)%nat with (S (length fs)) by lia.
        by rewrite <- !app_assoc.
      * rewrite Hhd. symmetry. apply head_snoc.
        intros ->. apply spine_length in Hsp'. simpl in Hsp'. lia.
Qed.

(** The adjustment of the stack, with depths. *)
Lemma adjust_depths lv st done ds :
  depth_inv st done ds ->
  match stack_after lv (prev_level st) (length (parents st)) (started done) with
  | Some d' =>
      exists h ps fs top,
        adjust_parents lv st = Ok (h, ps) /\ length ps = d' /\
        spine h 0 ps fs top /\ head ps = Some root /\
        frames_depths 0 fs ++ forest_depths (length fs) top = zip (map label done) ds /\
        forallb proper top = true /\
        Forall (fun fr : frame => forallb proper fr.1.1 = true) fs
  | None =>
      (exists e, adjust_parents lv st = Raise e) \/
      (exists h, adjust_parents lv st = Ok (h, []))
  end.
Proof.
  intros (fs & top & Hsp & Hhd & Hd & Hlen & Hstart & Htop & Hfs).
  unfold stack_after, adjust_parents.
  destruct (lv >? prev_level st) eqn:Hgt.
  - destruct (spine_last _ _ _ _ _ Hsp) as (l & items & Hlast & _ & Hl & Hr).
    rewrite (py_last_Ok _ _ Hlast). simpl. unfold read_list. rewrite Hl. simpl.
    destruct Hstart as [(-> & -> & ->) | (Hne & pre & t & p & ->)].
    + apply repr_items_length in Hr. destruct items; [|done]. simpl.
      exists (store st), (parents st), [], []. eauto 10.
    + destruct (repr_items_snoc_inv_r _ _ _ _ _ _ Hr) as (ds0 & d0 & mid & -> & Hpre & Hn).
      rewrite length_app. simpl.
      replace (0 <? Z.of_nat (length ds0 + 1)) with true by (symmetry; apply Z.ltb_lt; lia).
      rewrite (py_last_Ok _ d0) by apply last_snoc. simpl.
      inversion Hn as [? ? ? ? ? Hdb Hhd0|]; subst.
      unfold read_dict. rewrite Hhd0. simpl.
      assert (started done = true) as -> by (by destruct done).
      eexists _, _, (fs ++ [(pre, t, p)]), []. split; [reflexivity|].
      split; [rewrite length_app; simpl; lia|].
      split; [by eapply spine_push|]. split.
      { rewrite head_snoc; [done|]. intros E. by rewrite E in Hlast. }
      split.
      { rewrite frames_depths_snoc, <- Hd, forest_depths_app, forest_depths_leaf.
        simpl. by rewrite app_nil_r. }
      split; [done|].
      apply Forall_app. split; [done|]. constructor; [|done]. simpl.
      rewrite forallb_app in Htop. by apply andb_true_iff in Htop as [? _].
  - destruct (lv <? prev_level st) eqn:Hlt.
    + rewrite pop_n_take.
      destruct (Z.to_nat (prev_level st - lv) <? length (parents st))%nat eqn:Hn.
      * apply Nat.ltb_lt in Hn.
        destruct (Z.to_nat (prev_level st - lv) <=? length (parents st))%nat eqn:Hn';
          [|apply Nat.leb_gt in Hn'; lia].
        simpl.
        set (ps' := take (length (parents st) - Z.to_nat (prev_level st - lv)) (parents st)).
        assert (pop_n (Z.to_nat (prev_level st - lv)) (parents st) = Ok ps') as Hpop.
        { by rewrite pop_n_take, Hn'. }
        assert (length ps' = (length (parents st) - Z.to_nat (prev_level st - lv))%nat) as Hlen'.
        { by apply pop_n_length in Hpop as [_ ?]. }
        assert (ps' <> []) as Hne' by (intros E; rewrite E in Hlen'; simpl in Hlen'; lia).
        destruct Hstart as [(-> & -> & ->) | (Hne & pre & t & p & ->)].
        { apply spine_length in Hsp. simpl in Hsp. apply Z.ltb_lt in Hlt. lia. }
        destruct (pop_n_spine_depths _ _ _ _ _ _ _ Hsp ltac:(by destruct pre) Htop Hfs Hpop Hne')
          as (fs' & top' & Hsp' & Hd' & Hhd' & _ & Htop' & Hfs').
        exists (store st), ps', fs', top'. split; [done|]. split; [done|].
        split; [done|]. split; [congruence|]. split; [congruence|]. done.
      * apply Nat.ltb_ge in Hn.
        destruct (Z.to_nat (prev_level st - lv) <=? length (parents st))%nat eqn:Hn'; simpl.
        -- apply Nat.leb_le in Hn'. right. exists (store st).
           replace (length (parents st) - Z.to_nat (prev_level st - lv))%nat with 0%nat by lia.
           done.
        -- left. eauto.
    + exists (store st), (parents st), fs, top. eauto 10.
Qed.

Lemma step_depths st b done ds :
  depth_inv st done ds ->
  match stack_after (level b) (prev_level st) (length (parents st)) (started done) with
  | Some d' =>
      exists st', step st b = Ok st' /\
                  length (parents st') = d' /\ prev_level st' = level b /\
                  depth_inv st' (done ++ [b]) (ds ++ [(d' - 1)%nat])
  | None => exists e, step st b = Raise e
  end.
Proof.
  intros Hinv. pose proof (adjust_depths (level b) st done ds Hinv) as Hadj.
  destruct Hinv as (_ & _ & _ & _ & _ & Hlen & _).
  unfold step.
  destruct (stack_after _ _ _ _) as [d'|].
  - destruct Hadj as (h & ps & fs & top & -> & Hd' & Hsp & Hhd & Hd & Htop & Hfs). simpl.
    destruct (spine_last _ _ _ _ _ Hsp) as (l & items & Hlast & _ & Hl & Hr).
    unfold append_node. rewrite (py_last_Ok _ _ Hlast). simpl.
    unfold read_list. rewrite Hl. simpl.
    eexists. split; [reflexivity|]. simpl. split; [done|]. split; [done|].
    exists fs, (top ++ [Node (title b) (page b) None]). simpl.
    split; [by apply spine_append|]. split; [done|]. split; [|split; [|split; [|split]]].
    + rewrite forest_depths_app, forest_depths_leaf, app_assoc, Hd.
      rewrite map_app. simpl. rewrite zip_with_app by (by rewrite length_map).
      simpl. apply spine_length in Hsp. rewrite Hsp in Hd'. subst d'. simpl.
      by rewrite Nat.sub_0_r.
    + rewrite !length_app. simpl. lia.
    + right. split; [by destruct done|]. eauto.
    + rewrite forallb_app, Htop. done.
    + done.
  - destruct Hadj as [[e ->] | [h ->]]; simpl; eauto.
Qed.

Lemma builder_init_depth_inv : depth_inv builder_init [] [].
Proof.
  exists [], []. simpl. split; [|repeat split; auto].
  eapply spine_top; [lia | reflexivity |]. simpl. apply repr_nil. lia.
Qed.

Lemma run_depths bs : forall st done ds,
  depth_inv st done ds ->
  match plan (prev_level st) (length (parents st)) (started done) (map level bs) with
  | Some ds' => exists st', run st bs = Ok st' /\ depth_inv st' (done ++ bs) (ds ++ ds')
  | None => exists e, run st bs = Raise e
  end.
Proof.
  induction bs as [|b bs IH]; intros st done ds Hinv; simpl.
  - exists st. by rewrite !app_nil_r.
  - pose proof (step_depths st b done ds Hinv) as Hstep.
    destruct (stack_after _ _ _ _) as [d'|].
    + destruct Hstep as (st' & -> & Hd' & Hprev & Hinv'). simpl.
      specialize (IH st' _ _ Hinv'). rewrite Hd', Hprev in IH.
      assert (started (done ++ [b]) = true) as Hs by (by destruct done).
      rewrite Hs in IH.
      destruct (plan (level b) d' true (map level bs)) as [ds'|].
      * destruct IH as (st'' & -> & Hinv''). exists st''. split; [done|].
        by rewrite <- !app_assoc in Hinv''.
      * done.
    + destruct Hstep as [e ->]. simpl. eauto.
Qed.

(** The builder against the levels: it returns when [node_depths] gives
    the depths, with the nodes at those depths and no empty children
    list, and raises otherwise. *)
Lemma create_bookmark_tree_plan bs :
  match node_depths (map level bs) with
  | Some ds =>
      exists f, create_bookmark_tree bs = Ok f /\
                forest_depths 0 f = zip (map label bs) ds /\
                length ds = length bs /\
                forallb proper f = true
  | None => exists e, create_bookmark_tree bs = Raise e
  end.
Proof.
  unfold node_depths, create_bookmark_tree.
  pose proof (run_depths bs _ _ _ builder_init_depth_inv) as Hrun. simpl in Hrun.
  destruct (plan 0 1 false (map level bs)) as [ds|].
  - destruct Hrun as (st & -> & fs & top & Hsp & Hhd & Hd & Hlen & Hstart & Htop & Hfs).
    simpl.
    destruct (spine_head _ _ _ _ _ Hsp) as (l & ps & E & _).
    rewrite E in Hhd, Hsp. simpl in Hhd. injection Hhd as ->.
    destruct (spine_bottom _ _ _ _ _ _ Hsp) as (items & Hl & Hr).
    exists (plug fs top). split; [|split; [|split]].
    + unfold read_forest. rewrite Hl.
      rewrite (proj2 (read_repr _) _ _ _ _ Hr); [done|lia].
    + by rewrite plug_depths.
    + done.
    + apply plug_proper; [done | done |].
      intros Hne. destruct Hstart as [(_ & -> & _) | (_ & pre & t & p & ->)]; [done|].
      by destruct pre.
  - destruct Hrun as [e ->]. simpl. eauto.
Qed.

Lemma plan_steady floor levels : forall prev d,
  (1 <= d)%nat -> Z.of_nat d - 1 = prev - floor ->
  steady floor prev levels ->
  plan prev d true levels = Some (map (fun lv => Z.to_nat (lv - floor)) levels).
Proof.
  induction levels as [|lv rest IH]; intros prev d Hd Hinv Hst; simpl; [done|].
  destruct Hst as [Hlv Hst]. unfold stack_after.
  destruct (lv >? prev) eqn:Hgt.
  - apply Z.gtb_lt in Hgt. rewrite (IH lv (S d)); [|lia|lia|done].
    do 2 f_equal. lia.
  - rewrite Z.gtb_ltb in Hgt. apply Z.ltb_ge in Hgt.
    destruct (lv <? prev) eqn:Hlt.
    + apply Z.ltb_lt in Hlt.
      destruct (Z.to_nat (prev - lv) <? d)%nat eqn:Hn; [|apply Nat.ltb_ge in Hn; lia].
      apply Nat.ltb_lt in Hn.
      rewrite (IH lv (d - Z.to_nat (prev - lv))%nat); [|lia|lia|done].
      do 2 f_equal. lia.
    + apply Z.ltb_ge in Hlt. assert (lv = prev) as -> by lia.
      rewrite (IH prev d); [|lia|lia|done]. do 2 f_equal. lia.
Qed.

Lemma node_depths_steady l0 levels :
  0 <= l0 -> steady l0 l0 levels ->
  node_depths (l0 :: levels) = Some (map (fun lv => Z.to_nat (lv - l0)) (l0 :: levels)).
Proof.
  intros H0 Hst. unfold node_depths. simpl. unfold stack_after.
  destruct (l0 >? 0) eqn:Hgt.
  - rewrite (plan_steady l0 levels l0 1); [|lia|lia|done]. by rewrite Z.sub_diag.
  - destruct (Z.ltb_spec l0 0); [lia|].
    rewrite (plan_steady l0 levels l0 1); [|lia|lia|done]. by rewrite Z.sub_diag.
Qed.

Lemma plan_below floor c rest levels : forall prev d st,
  (1 <= d)%nat -> Z.of_nat d - 1 <= prev - floor -> c < floor ->
  plan prev d st (levels ++ c :: rest) = None.
Proof.
  induction levels as [|lv levels IH]; intros prev d st Hd Hinv Hc; simpl.
  - unfold stack_after.
    destruct (c >? prev) eqn:Hgt; [apply Z.gtb_lt in Hgt; lia|].
    destruct (Z.ltb_spec c prev); [|lia].
    destruct (Z.to_nat (prev - c) <? d)%nat eqn:Hn; [apply Nat.ltb_lt in Hn; lia|done].
  - unfold stack_after.
    destruct (lv >? prev) eqn:Hgt.
    + apply Z.gtb_lt in Hgt. rewrite IH; [done | destruct st; lia | destruct st; lia | done].
    + destruct (Z.ltb_spec lv prev).
      * destruct (Z.to_nat (prev - lv) <? d)%nat eqn:Hn; [|done].
        apply Nat.ltb_lt in Hn. rewrite IH; [done | lia | lia | done].
      * rewrite Z.gtb_ltb in Hgt. apply Z.ltb_ge in Hgt.
        rewrite IH; [done | lia | lia | done].
Qed.

Lemma node_depths_below l0 levels c rest :
  c < l0 -> node_depths (l0 :: levels ++ c :: rest) = None.
Proof.
  intros Hc. unfold node_depths. simpl. unfold stack_after.
  destruct (l0 >? 0) eqn:Hgt.
  - rewrite plan_below with (floor := l0); [done | lia | lia | done].
  - destruct (Z.ltb_spec l0 0).
    + destruct (Z.to_nat (0 - l0) <? 1)%nat eqn:Hn; [apply Nat.ltb_lt in Hn; lia|done].
    + rewrite plan_below with (floor := l0); [done | lia | lia | done].
Qed.

(** A forest without empty children lists whose nodes are all at depth 0
    is a list of leaves. *)
Lemma flat_forest labels : forall f,
  forallb proper f = true ->
  forest_depths 0 f = map (fun tp : str * Z => (tp, 0%nat)) labels ->
  f = map (fun tp : str * Z => Node tp.1 tp.2 None) labels.
Proof.
  induction labels as [|[t p] labels IH]; intros f Hp Hd.
  - destruct f as [|[t p c] f]; [done|]. discriminate Hd.
  - destruct f as [|[t0 p0 c] f]; [discriminate Hd|].
    simpl in Hp. apply andb_true_iff in Hp as [Hn Hp].
    unfold forest_depths in Hd. simpl in Hd. injection Hd as -> -> Hd.
    destruct c as [[|[t1 p1 c1] ch]|]; [done | |].
    + destruct labels; discriminate Hd.
    + simpl in Hd. simpl. f_equal. by apply IH.
Qed.

Lemma zip_labels_levels (g : Z -> nat) (bs : list bookmark) :
  zip (map label bs) (map g (map level bs)) =
  map (fun r => (title r, page r, g (level r))) bs.
Proof. induction bs as [|b bs IH]; simpl; [done|]. by rewrite IH. Qed.

(** X1. [create_bookmark_tree] raises exactly when the levels empty the
    stack: at some record the level has dropped by at least the length of
    [parents], a length that follows from the levels alone. Titles and
    pages play no part. *)
Theorem builder_raises_iff_stack_emptied (bs : list bookmark) :
  node_depths (map level bs) = None <-> exists e, create_bookmark_tree bs = Raise e.
Proof.
  pose proof (create_bookmark_tree_plan bs) as H.
  destruct (node_depths (map level bs)) as [ds|].
  - destruct H as (f & Hf & _). split; [done|]. intros [e He]. congruence.
  - split; [done|]. done.
Qed.

(** X2. In the forest returned each record is a node at the depth that
    the stack had when it was appended: the length of [parents] minus
    one, as [node_depths] computes it from the levels. *)
Theorem nodes_lie_at_stack_depth (bs : list bookmark) (f : forest) :
  create_bookmark_tree bs = Ok f ->
  exists ds, node_depths (map level bs) = Some ds /\
             length ds = length bs /\
             forest_depths 0 f = zip (map label bs) ds.
Proof.
  intros Hf. pose proof (create_bookmark_tree_plan bs) as H.
  destruct (node_depths (map level bs)) as [ds|].
  - destruct H as (f' & Hf' & Hd & Hlen & _). exists ds.
    rewrite Hf in Hf'. injection Hf' as <-. done.
  - destruct H as [e He]. congruence.
Qed.

Lemma nodes_lie_at_stack_depth_witness :
  create_bookmark_tree levels_1_2_4_2 =
    Ok [Node "A" 0 (Some [Node "B" 1 (Some [Node "C" 2 None])]); Node "D" 3 None] /\
  exists ds, node_depths [1; 2; 4; 2] = Some ds /\
             length ds = 4%nat /\
             forest_depths 0
               [Node "A" 0 (Some [Node "B" 1 (Some [Node "C" 2 None])]); Node "D" 3 None]
             = zip (map label levels_1_2_4_2) ds.
Proof.
  split; [reflexivity|].
  apply (nodes_lie_at_stack_depth levels_1_2_4_2). reflexivity.
Defined.

(** X3. When the levels never go below the level of the first record
    (not negative) and never rise by more than one, the builder returns,
    and each record is a node at depth [level - first level]. *)
Theorem steady_levels_nest_by_level (b : bookmark) (bs : list bookmark) :
  0 <= level b ->
  steady (level b) (level b) (map level bs) ->
  exists f, create_bookmark_tree (b :: bs) = Ok f /\
            forest_depths 0 f =
              map (fun r => (title r, page r, Z.to_nat (level r - level b))) (b :: bs).
Proof.
  intros H0 Hst. pose proof (create_bookmark_tree_plan (b :: bs)) as H.
  change (map level (b :: bs)) with (level b :: map level bs) in H.
  rewrite (node_depths_steady _ _ H0 Hst) in H.
  destruct H as (f & Hf & Hd & _). exists f. split; [done|].
  rewrite Hd. apply (zip_labels_levels (fun lv => Z.to_nat (lv - level b)) (b :: bs)).
Qed.

Lemma steady_levels_nest_by_level_witness :
  0 <= level (Bookmark 2 "A" 0) /\
  steady 2 2 (map level [Bookmark 3 "B" 1; Bookmark 4 "C" 2; Bookmark 2 "D" 3]) /\
  exists f,
    create_bookmark_tree
      [Bookmark 2 "A" 0; Bookmark 3 "B" 1; Bookmark 4 "C" 2; Bookmark 2 "D" 3] = Ok f /\
    forest_depths 0 f = [("A", 0, 0%nat); ("B", 1, 1%nat); ("C", 2, 2%nat); ("D", 3, 0%nat)].
Proof.
  assert (steady 2 2 (map level [Bookmark 3 "B" 1; Bookmark 4 "C" 2; Bookmark 2 "D" 3]))
    as Hst by (simpl; lia).
  split; [simpl; lia|]. split; [exact Hst|].
  apply (steady_levels_nest_by_level (Bookmark 2 "A" 0)
           [Bookmark 3 "B" 1; Bookmark 4 "C" 2; Bookmark 2 "D" 3]);
    [simpl; lia | exact Hst].
Defined.

(** X4. An input with a record below the level of its first record is
    never turned into a forest: the builder raises. *)
Theorem below_first_level_raises (b c : bookmark) (bs1 bs2 : list bookmark) :
  level c < level b ->
  exists e, create_bookmark_tree (b :: bs1 ++ c :: bs2) = Raise e.
Proof.
  intros Hc. pose proof (create_bookmark_tree_plan (b :: bs1 ++ c :: bs2)) as H.
  change (map level (b :: bs1 ++ c :: bs2))
    with (level b :: map level (bs1 ++ c :: bs2)) in H.
  rewrite map_app in H. simpl in H.
  by rewrite (node_depths_below _ _ _ _ Hc) in H.
Qed.

Lemma below_first_level_raises_witness :
  level (Bookmark 1 "C" 2) < level (Bookmark 2 "A" 0) /\
  exists e,
    create_bookmark_tree
      (Bookmark 2 "A" 0 :: [Bookmark 3 "B" 1] ++ Bookmark 1 "C" 2 :: [Bookmark 2 "D" 3])
    = Raise e.
Proof.
  split; [simpl; lia|].
  apply (below_first_level_raises (Bookmark 2 "A" 0) (Bookmark 1 "C" 2)
           [Bookmark 3 "B" 1] [Bookmark 2 "D" 3]).
  simpl; lia.
Defined.

(** X5. No node of a forest returned holds an empty children list: the
    key ['children'] is set only when a node is about to be appended to
    its list. *)
Theorem children_never_empty (bs : list bookmark) (f : forest) :
  create_bookmark_tree bs = Ok f -> forallb proper f = true.
Proof.
  intros Hf. pose proof (create_bookmark_tree_plan bs) as H.
  destruct (node_depths (map level bs)) as [ds|].
  - destruct H as (f' & Hf' & _ & _ & Hp). rewrite Hf in Hf'. by injection Hf' as <-.
  - destruct H as [e He]. congruence.
Qed.

Lemma children_never_empty_witness :
  create_bookmark_tree levels_1_2_4_2 =
    Ok [Node "A" 0 (Some [Node "B" 1 (Some [Node "C" 2 None])]); Node "D" 3 None] /\
  forallb proper
    [Node "A" 0 (Some [Node "B" 1 (Some [Node "C" 2 None])]); Node "D" 3 None] = true.
Proof.
  split; [reflexivity|].
  apply (children_never_empty levels_1_2_4_2). reflexivity.
Defined.

(** X6. Records that all have one level (not negative) give a flat
    forest: one leaf for each record, in the order of the input. *)
Theorem equal_levels_give_leaves (l : Z) (bs : list bookmark) :
  0 <= l ->
  Forall (fun b => level b = l) bs ->
  create_bookmark_tree bs = Ok (map (fun b => Node (title b) (page b) None) bs).
Proof.
  intros Hl Hall. destruct bs as [|b bs]; [reflexivity|].
  inversion Hall as [|? ? Hb Hbs]; subst.
  assert (steady (level b) (level b) (map level bs)) as Hst.
  { clear Hall. induction Hbs as [|b' bs' Hb' _ IH]; simpl; [done|].
    rewrite Hb'. split; [lia|]. apply IH. }
  pose proof (create_bookmark_tree_plan (b :: bs)) as H.
  change (map level (b :: bs)) with (level b :: map level bs) in H.
  rewrite (node_depths_steady _ _ Hl Hst) in H.
  destruct H as (f & -> & Hd & _ & Hp). f_equal.
  rewrite (flat_forest (map label (b :: bs)) f Hp).
  - by rewrite map_map.
  - rewrite Hd.
    transitivity (map (fun r => (title r, page r, Z.to_nat (level r - level b))) (b :: bs));
      [apply (zip_labels_levels (fun lv => Z.to_nat (lv - level b)) (b :: bs))|].
    rewrite map_map. apply map_ext_in. intros r Hr.
    assert (level r = level b) as ->.
    { destruct Hr as [<-|Hr]; [done|]. rewrite List.Forall_forall in Hbs. by apply Hbs. }
    by rewrite Z.sub_diag.
Qed.

Lemma equal_levels_give_leaves_witness :
  0 <= 3 /\
  Forall (fun b => level b = 3) [Bookmark 3 "A" 0; Bookmark 3 "B" 1; Bookmark 3 "C" 2] /\
  create_bookmark_tree [Bookmark 3 "A" 0; Bookmark 3 "B" 1; Bookmark 3 "C" 2] =
    Ok [Node "A" 0 None; Node "B" 1 None; Node "C" 2 None].
Proof.
  assert (Forall (fun b => level b = 3)
            [Bookmark 3 "A" 0; Bookmark 3 "B" 1; Bookmark 3 "C" 2]) as Hall
    by (repeat constructor).
  split; [lia|]. split; [exact Hall|].
  apply (equal_levels_give_leaves 3 [Bookmark 3 "A" 0; Bookmark 3 "B" 1; Bookmark 3 "C" 2]);
    [lia | exact Hall].
Defined.

Lemma stack_after_positive lv prev d st d' :
  (1 <= d)%nat -> stack_after lv prev d st = Some d' -> (1 <= d')%nat.
Proof.
  unfold stack_after. intros Hd.
  destruct (lv >? prev); [destruct st; intros [= <-]; lia|].
  destruct (lv <? prev); [|intros [= <-]; lia].
  destruct (_ <? d)%nat eqn:Hn; [|done]. apply Nat.ltb_lt in Hn. intros [= <-]. lia.
Qed.

(** A rise of two levels or more followed by a return: the record that
    returns is planned above the record it returns to. *)
Lemma plan_skip a b c rest levels : forall prev d st ds,
  (1 <= d)%nat -> a + 2 <= b -> c = a ->
  plan prev d st (levels ++ a :: b :: c :: rest) = Some ds ->
  exists da dc, ds !! length levels = Some da /\
                ds !! (length levels + 2)%nat = Some dc /\ (dc < da)%nat.
Proof.
  induction levels as [|lv levels IH]; intros prev d st ds Hd Hab Hc Hplan; simpl in Hplan.
  - destruct (stack_after a prev d st) as [d1|] eqn:H1; [|done].
    apply stack_after_positive in H1 as Hd1; [|done].
    unfold stack_after at 1 in Hplan.
    destruct (b >? a) eqn:Hgt; [|rewrite Z.gtb_ltb in Hgt; apply Z.ltb_ge in Hgt; lia].
    unfold stack_after at 1 in Hplan.
    destruct (c >? b) eqn:Hgt'; [apply Z.gtb_lt in Hgt'; lia|].
    destruct (Z.ltb_spec c b); [|lia].
    destruct (Z.to_nat (b - c) <? S d1)%nat eqn:Hn; [|done].
    apply Nat.ltb_lt in Hn.
    destruct (plan c _ true rest) as [ds'|]; [|done].
    injection Hplan as <-. simpl.
    eexists _, _. split; [reflexivity|]. split; [reflexivity|]. lia.
  - destruct (stack_after lv prev d st) as [d1|] eqn:H1; [|done].
    apply stack_after_positive in H1 as Hd1; [|done].
    destruct (plan lv d1 true (levels ++ a :: b :: c :: rest)) as [ds'|] eqn:Hp; [|done].
    injection Hplan as <-. simpl. by eapply IH.
Qed.

(** X7. After a rise of two levels or more, a record that comes back to
    the level the rise started from does not become a sibling of the
    record it started from: when the builder returns, it lies at a
    smaller depth. *)
Theorem return_after_skipped_level_lands_higher
    (pre post : list bookmark) (a b c : bookmark) (f : forest) :
  level a + 2 <= level b ->
  level c = level a ->
  create_bookmark_tree (pre ++ a :: b :: c :: post) = Ok f ->
  exists da dc,
    forest_depths 0 f !! length pre = Some (title a, page a, da) /\
    forest_depths 0 f !! (length pre + 2)%nat = Some (title c, page c, dc) /\
    (dc < da)%nat.
Proof.
  intros Hab Hc Hf. pose proof (create_bookmark_tree_plan (pre ++ a :: b :: c :: post)) as H.
  destruct (node_depths _) as [ds|] eqn:Hds; [|destruct H as [e He]; congruence].
  destruct H as (f' & Hf' & Hd & _). rewrite Hf in Hf'. injection Hf' as <-.
  rewrite map_app in Hds. simpl in Hds. unfold node_depths in Hds.
  destruct (plan_skip (level a) (level b) (level c) (map level post) (map level pre)
              0 1%nat false ds ltac:(lia) Hab Hc Hds) as (da & dc & Ha & Hcc & Hlt).
  rewrite length_map in Ha, Hcc.
  exists da, dc. rewrite Hd. split; [|split; [|done]].
  - apply lookup_zip_Some. split; [|done].
    rewrite list_lookup_fmap, lookup_app_r by lia. by rewrite Nat.sub_diag.
  - apply lookup_zip_Some. split; [|done].
    rewrite list_lookup_fmap, lookup_app_r by lia.
    by replace (length pre + 2 - length pre)%nat with 2%nat by lia.
Qed.

Lemma return_after_skipped_level_lands_higher_witness :
  level (Bookmark 2 "B" 1) + 2 <= level (Bookmark 4 "C" 2) /\
  level (Bookmark 2 "D" 3) = level (Bookmark 2 "B" 1) /\
  exists da dc,
    forest_depths 0
      [Node "A" 0 (Some [Node "B" 1 (Some [Node "C" 2 None])]); Node "D" 3 None]
      !! 1%nat = Some ("B", 1, da) /\
    forest_depths 0
      [Node "A" 0 (Some [Node "B" 1 (Some [Node "C" 2 None])]); Node "D" 3 None]
      !! 3%nat = Some ("D", 3, dc) /\
    (dc < da)%nat.
Proof.
  split; [simpl; lia|]. split; [reflexivity|].
  apply (return_after_skipped_level_lands_higher
           [Bookmark 1 "A" 0] [] (Bookmark 2 "B" 1) (Bookmark 4 "C" 2) (Bookmark 2 "D" 3));
    [simpl; lia | reflexivity | reflexivity].
Defined.

(** ** The groups of a match *)

Lemma plus_greedy_cons {A} cls (k : str -> str -> option A) acc c s :
  plus_greedy cls k acc (c :: s) =
    if cls c then
      match plus_greedy cls k (snoc acc c) s with
      | Some r => Some r
      | None => k (snoc acc c) s
      end
    else None.
Proof. reflexivity. Qed.

(** The greedy [+] gives up characters only when going on fails. *)
Lemma plus_greedy_inv_max {A} cls (k : str -> str -> option A) s : forall acc r,
  plus_greedy cls k acc s = Some r ->
  exists m rest, s = m ++ rest /\ m <> [] /\ all_chars cls m = true /\
                 k (acc ++ m) rest = Some r /\
                 plus_greedy cls k (acc ++ m) rest = None.
Proof.
  induction s as [|c s IH]; intros acc r H; simpl in H; [done|].
  destruct (cls c) eqn:Hc; [|done].
  destruct (plus_greedy cls k (snoc acc c) s) as [r'|] eqn:E.
  - injection H as <-. destruct (IH _ _ E) as (m & rest & -> & _ & Hm & Hk & Hmax).
    exists (c :: m), rest. rewrite snoc_append in Hk, Hmax.
    repeat split; [done | simpl; by rewrite Hc, Hm | done | done].
  - exists [c], s. repeat split; [done | simpl; by rewrite Hc | done | done].
Qed.

(** The lazy [+?] takes a character more only when stopping fails. *)
Lemma plus_lazy_inv_min {A} cls (k : str -> str -> option A) s : forall acc r,
  plus_lazy cls k acc s = Some r ->
  exists m rest, s = m ++ rest /\ m <> [] /\ all_chars cls m = true /\
                 k (acc ++ m) rest = Some r /\
                 forall m1 m2, m = m1 ++ m2 -> m1 <> [] -> m2 <> [] ->
                               k (acc ++ m1) (m2 ++ rest) = None.
Proof.
  induction s as [|c s IH]; intros acc r H; simpl in H; [done|].
  destruct (cls c) eqn:Hc; [|done].
  destruct (k (snoc acc c) s) as [r'|] eqn:E.
  - injection H as <-.
    exists [c], s. repeat split; [done | simpl; by rewrite Hc | done |].
    intros m1 m2 Hm Hm1 Hm2. destruct m1 as [|c1 m1]; [done|].
    simpl in Hm.
    injection Hm as _ Hm. destruct m2 as [|c2 m2]; [done|].
    destruct m1; discriminate Hm.
  - destruct (IH _ _ H) as (m & rest & -> & Hne & Hm & Hk & Hmin).
    exists (c :: m), rest. rewrite snoc_append in Hk.
    repeat split; [done | simpl; by rewrite Hc, Hm | done |].
    intros m1 m2 Hm12 Hm1 Hm2. destruct m1 as [|c1 m1]; [done|].
    simpl in Hm12. injection Hm12 as <- ->.
    destruct m1 as [|c1' m1'].
    + exact E.
    + rewrite <- snoc_append. by apply Hmin.
Qed.

Lemma string_snoc_cases (s : str) :
  s = [] \/ exists s' c, s = s' ++ [c].
Proof.
  induction s as [|c s IH]; [by left|]. right.
  destruct IH as [->|(s' & c' & ->)].
  - by exists [], c.
  - by exists (c :: s'), c'.
Qed.

Lemma all_chars_snoc cls (s : str) c :
  all_chars cls (s ++ [c]) = all_chars cls s && cls c.
Proof. rewrite all_chars_append. simpl. by rewrite andb_true_r. Qed.

Lemma rstrip_snoc s c : isspace c = false ->
  rstrip (s ++ [c]) = s ++ [c].
Proof.
  intros Hc. induction s as [|a s IH].
  - simpl. by rewrite Hc.
  - simpl. rewrite IH. by destruct s.
Qed.

(** The tail of a match after the title, for the continuations of
    [re_match]. *)
Lemma tail_matches (g1 g2 w2 g3 tail : str) acc :
  w2 <> [] -> all_chars isspace w2 = true ->
  g3 <> [] -> all_chars isdigit g3 = true -> at_end tail = true ->
  is_Some (plus_greedy isspace (fun _ s4 =>
             plus_greedy isdigit (fun g3' s5 =>
               if at_end s5 then Some (g1, g2, g3') else None) [] s4)
             acc (w2 ++ g3 ++ tail)).
Proof.
  intros Hw2 Hcw2 Hg3 Hcg3 He.
  apply plus_greedy_complete; [done..|].
  apply plus_greedy_complete; [done..|]. simpl. by rewrite He.
Qed.

(** The title of a match has no white space at its ends, unless it is one
    character of white space (a line with nothing but white space between
    its two numbers). *)
Lemma re_match_title line g1 g2 g3 :
  re_match line = Some (g1, g2, g3) ->
  strip g2 = g2 \/ exists c, g2 = [c] /\ isspace c = true.
Proof.
  unfold re_match. intros H.
  apply plus_greedy_inv in H as (m1 & r1 & -> & Hn1 & Hc1 & H).
  apply plus_greedy_inv_max in H as (w1 & r2 & -> & Hnw1 & Hcw1 & H & Hmax).
  apply plus_lazy_inv_min in H as (m2 & r3 & -> & Hn2 & Hc2 & H & Hmin).
  apply plus_greedy_inv in H as (w2 & r4 & -> & Hnw2 & Hcw2 & H).
  apply plus_greedy_inv in H as (m3 & r5 & -> & Hn3 & Hc3 & H).
  simpl in H. destruct (at_end r5) eqn:He; [|done]. injection H as <- <- <-.
  destruct m2 as [|c m2]; [done|].
  destruct (isspace c) eqn:Hsp.
  - (* the title starts with white space: the greedy white space before it
       could have taken that character *)
    right. exists c. split; [|done]. f_equal.
    destruct m2 as [|c' m2']; [done|]. exfalso.
    rewrite <- app_comm_cons in Hmax.
    rewrite plus_greedy_cons, Hsp in Hmax.
    match type of Hmax with
    | match ?x with _ => _ end = None => destruct x; [discriminate Hmax|]
    end.
    cbv beta in Hmax.
    simpl in Hc2. apply andb_true_iff in Hc2 as [_ Hc2].
    eapply (is_Some_None (A := str * str * str)). rewrite <- Hmax.
    apply plus_lazy_complete; [done | done |].
    apply tail_matches; done.
  - destruct (string_snoc_cases m2) as [->|(m2' & c' & ->)].
    + left. unfold strip. simpl. rewrite Hsp. simpl. by rewrite Hsp.
    + destruct (isspace c') eqn:Hsp'.
      * exfalso.
        specialize (Hmin (c :: m2') [c'] eq_refl ltac:(done) ltac:(done)).
        eapply (is_Some_None (A := str * str * str)). rewrite <- Hmin.
        change ([c'] ++ w2 ++ m3 ++ r5) with ((c' :: w2) ++ m3 ++ r5).
        apply tail_matches; try done. simpl. by rewrite Hsp', Hcw2.
      * left. unfold strip. simpl. rewrite Hsp.
        exact (rstrip_snoc (c :: m2') c' Hsp').
Qed.

(** ** White space around a line *)

Lemma lstrip_spaces pad s :
  all_chars isspace pad = true -> lstrip (pad ++ s) = lstrip s.
Proof.
  induction pad as [|c pad IH]; intros H; [done|].
  simpl in H. apply andb_true_iff in H as [Hc H].
  simpl. rewrite Hc. by apply IH.
Qed.

Lemma rstrip_all_spaces pad : all_chars isspace pad = true -> rstrip pad = [].
Proof.
  induction pad as [|c pad IH]; intros H; [done|].
  simpl in H. apply andb_true_iff in H as [Hc H]. simpl. by rewrite IH, Hc.
Qed.

Lemma rstrip_spaces s pad :
  all_chars isspace pad = true -> rstrip (s ++ pad) = rstrip s.
Proof.
  intros H. induction s as [|c s IH].
  - simpl. by apply rstrip_all_spaces.
  - simpl. by rewrite IH.
Qed.

Lemma lstrip_all_spaces s : all_chars isspace s = true -> lstrip s = [].
Proof.
  induction s as [|c s IH]; intros H; [done|].
  simpl in H. apply andb_true_iff in H as [Hc H]. simpl. rewrite Hc. by apply IH.
Qed.

Lemma lstrip_append s pad :
  all_chars isspace s = false -> lstrip (s ++ pad) = lstrip s ++ pad.
Proof.
  induction s as [|c s IH]; intros H; [done|].
  simpl in *.
  destruct (isspace c); [by apply IH | done].
Qed.

Lemma strip_padding pad1 s pad2 :
  all_chars isspace pad1 = true -> all_chars isspace pad2 = true ->
  strip (pad1 ++ s ++ pad2) = strip s.
Proof.
  intros H1 H2. unfold strip. rewrite lstrip_spaces by done.
  destruct (all_chars isspace s) eqn:Hs.
  - rewrite !lstrip_all_spaces; [done | done |].
    by rewrite all_chars_append, Hs, H2.
  - rewrite lstrip_append by done. by apply rstrip_spaces.
Qed.

Lemma classify_padded raw' raw : padded raw' raw -> classify raw' = classify raw.
Proof.
  intros (pad1 & pad2 & H1 & H2 & ->). unfold classify. by rewrite strip_padding.
Qed.

Lemma omap_cons_eq {A B} (f : A -> option B) x l :
  omap f (x :: l) = option_list (f x) ++ omap f l.
Proof. simpl. by destruct (f x). Qed.

Lemma omap_padded {B} (f : str -> option B) lines' lines :
  (forall raw' raw, padded raw' raw -> f raw' = f raw) ->
  Forall2 padded lines' lines -> omap f lines' = omap f lines.
Proof.
  intros Hf. induction 1 as [|raw' raw lines' lines Hp _ IH]; [done|].
  by rewrite !omap_cons_eq, (Hf _ _ Hp), IH.
Qed.

(** White space around the lines changes neither the lines that the loop
    goes through nor the exception that stops it. *)
Lemma entry_error_padded raw' raw : padded raw' raw -> entry_error raw' = entry_error raw.
Proof. intros H. unfold entry_error. by rewrite (classify_padded _ _ H). Qed.

Lemma lines_read_padded lines' lines :
  Forall2 padded lines' lines ->
  Forall2 padded (lines_read lines').1 (lines_read lines).1 /\
  (lines_read lines').2 = (lines_read lines).2.
Proof.
  induction 1 as [|raw' raw lines' lines Hp _ [IH1 IH2]]; [by split; constructor|].
  simpl. rewrite (entry_error_padded _ _ Hp).
  destruct (entry_error raw); [by split; constructor|].
  destruct (lines_read lines') as [pre' e'], (lines_read lines) as [pre e].
  simpl in *. split; [by constructor | done].
Qed.

(** ** The offset *)

Lemma record_of_shift page_offset raw :
  record_of page_offset raw = shift_page page_offset <$> record_of 0 raw.
Proof.
  unfold record_of. destruct (classify raw) as [| |g1 g2 g3|]; try done.
  destruct (int g1); [|done]. destruct (int g3); [|done].
  simpl. unfold shift_page. simpl. do 2 f_equal. lia.
Qed.

Lemma omap_records_shift page_offset lines :
  omap (record_of page_offset) lines =
  map (shift_page page_offset) (omap (record_of 0) lines).
Proof.
  induction lines as [|raw lines IH]; [done|].
  rewrite !omap_cons_eq, map_app, <- IH, record_of_shift.
  by destruct (record_of 0 raw).
Qed.

Lemma parse_bookmark_file_shift f page_offset :
  parse_bookmark_file f page_offset =
    (fst (parse_bookmark_file f 0),
     match snd (parse_bookmark_file f 0) with
     | Ok bookmarks => Ok (map (shift_page page_offset) bookmarks)
     | Raise e => Raise e
     end).
Proof.
  rewrite !parse_bookmark_file_eq. simpl.
  destruct (lines_read (file_lines f)).2; [done|].
  destruct (file_error f); [done|]. by rewrite omap_records_shift.
Qed.

(** ** The lines, one by one *)

Lemma line_accounted page_offset raw :
  readable raw = true ->
  (length (option_list (record_of page_offset raw)) +
   length (option_list (warning_of raw)) +
   (if silent raw then 1 else 0) = 1)%nat.
Proof.
  unfold readable, entry_error, record_of, warning_of, silent, classify.
  destruct (is_empty (strip raw)); [done|].
  destruct (startswith_hash (strip raw)); [done|].
  destruct (re_match (strip raw)) as [[[g1 g2] g3]|]; [|done].
  destruct (int g1); [|done]. by destruct (int g3).
Qed.

Lemma lines_accounted page_offset lines :
  Forall (fun raw => readable raw = true) lines ->
  (length (omap (record_of page_offset) lines) + length (omap warning_of lines) +
   length (List.filter silent lines) = length lines)%nat.
Proof.
  induction 1 as [|raw lines Hr _ IH]; [done|].
  pose proof (line_accounted page_offset raw Hr) as H.
  rewrite !omap_cons_eq, !length_app. simpl.
  destruct (silent raw); simpl in *; lia.
Qed.

(** X8. A record of the parser has a level that is not negative, a page
    of at least [page_offset - 1] and a title that is not empty and holds
    no newline. *)
Theorem parsed_records_are_well_formed
    (f : text_file) (page_offset : Z) (ws : list message)
    (bookmarks : list bookmark) (b : bookmark) :
  parse_bookmark_file f page_offset = (ws, Ok bookmarks) ->
  b ∈ bookmarks ->
  0 <= level b /\ page_offset - 1 <= page b /\
  title b <> [] /\ all_chars dot (title b) = true.
Proof.
  intros Hp Hb. apply parse_bookmark_file_inv in Hp as [_ ->].
  apply list_elem_of_omap in Hb as (raw & _ & Hrec).
  apply record_of_inv in Hrec as (g1 & g2 & g3 & Hm & _ & _ & ->).
  apply re_match_sound in Hm
    as (w1 & w2 & tail & _ & _ & Hd1 & _ & _ & Hn2 & Hc2 & _ & _ & _ & Hd3 & _).
  simpl. pose proof (int_digits_nonneg g1). pose proof (int_digits_nonneg g3).
  repeat split; [done | lia | done | done].
Qed.

Lemma parsed_records_are_well_formed_witness :
  parse_bookmark_file a_file_with_wide_digits (-7) =
    ([WarnMalformedLine "oops"],
     Ok [Bookmark 1 "Intro" (-3); Bookmark 2 [0x7b2c; 0x4e00; 0x7ae0]%N (-1);
         Bookmark 1 "End" 1]) /\
  0 <= level (Bookmark 2 [0x7b2c; 0x4e00; 0x7ae0]%N (-1)) /\
  -7 - 1 <= page (Bookmark 2 [0x7b2c; 0x4e00; 0x7ae0]%N (-1)) /\
  title (Bookmark 2 [0x7b2c; 0x4e00; 0x7ae0]%N (-1)) <> [] /\
  all_chars dot (title (Bookmark 2 [0x7b2c; 0x4e00; 0x7ae0]%N (-1))) = true.
Proof.
  assert (parse_bookmark_file a_file_with_wide_digits (-7) =
            ([WarnMalformedLine "oops"],
             Ok [Bookmark 1 "Intro" (-3); Bookmark 2 [0x7b2c; 0x4e00; 0x7ae0]%N (-1);
                 Bookmark 1 "End" 1]))
    as Hp by (vm_compute; reflexivity).
  split; [exact Hp|].
  apply (parsed_records_are_well_formed a_file_with_wide_digits (-7) _ _
           (Bookmark 2 [0x7b2c; 0x4e00; 0x7ae0]%N (-1)) Hp).
  apply list_elem_of_In. simpl. auto.
Defined.

(** X9. The title of a record has no white space at its ends: the
    pattern leaves it out, though the code does not strip the group. The
    one exception is a title of a single white space character, for a
    line that has only white space between its two numbers. *)
Theorem parsed_titles_are_stripped
    (f : text_file) (page_offset : Z) (ws : list message)
    (bookmarks : list bookmark) (b : bookmark) :
  parse_bookmark_file f page_offset = (ws, Ok bookmarks) ->
  b ∈ bookmarks ->
  strip (title b) = title b \/
  exists c, title b = [c] /\ isspace c = true.
Proof.
  intros Hp Hb. apply parse_bookmark_file_inv in Hp as [_ ->].
  apply list_elem_of_omap in Hb as (raw & _ & Hrec).
  apply record_of_inv in Hrec as (g1 & g2 & g3 & Hm & _ & _ & ->).
  simpl. by eapply re_match_title.
Qed.

Lemma parsed_titles_are_stripped_witness :
  parse_bookmark_file
    (TextFile ["1 " ++ [0x3000]%N ++ "Part   one" ++ [0x2003; 0xa0]%N ++ " 7";
               "1 " ++ [0x3000]%N ++ " 5"] None) 0 =
    ([], Ok [Bookmark 1 "Part   one" 6; Bookmark 1 [0x3000]%N 4]) /\
  (strip (title (Bookmark 1 "Part   one" 6)) = title (Bookmark 1 "Part   one" 6) \/
   exists c, title (Bookmark 1 "Part   one" 6) = [c] /\ isspace c = true) /\
  (strip (title (Bookmark 1 [0x3000]%N 4)) = title (Bookmark 1 [0x3000]%N 4) \/
   exists c, title (Bookmark 1 [0x3000]%N 4) = [c] /\ isspace c = true).
Proof.
  assert (parse_bookmark_file
            (TextFile ["1 " ++ [0x3000]%N ++ "Part   one" ++ [0x2003; 0xa0]%N ++ " 7";
                       "1 " ++ [0x3000]%N ++ " 5"] None) 0 =
            ([], Ok [Bookmark 1 "Part   one" 6; Bookmark 1 [0x3000]%N 4])) as Hp
    by (vm_compute; reflexivity).
  split; [exact Hp|]. split.
  - apply (parsed_titles_are_stripped _ 0 _ _ (Bookmark 1 "Part   one" 6) Hp).
    apply list_elem_of_In. simpl. auto.
  - apply (parsed_titles_are_stripped _ 0 _ _ (Bookmark 1 [0x3000]%N 4) Hp).
    apply list_elem_of_In. simpl. auto.
Defined.

(** X10. White space around a line, the newline that ends it included,
    changes nothing: the records, the warnings and the exception are
    those of the lines without it. *)
Theorem surrounding_whitespace_is_ignored
    (lines' lines : list str) (e : option exn) (page_offset : Z) :
  Forall2 padded lines' lines ->
  parse_bookmark_file (TextFile lines' e) page_offset =
  parse_bookmark_file (TextFile lines e) page_offset.
Proof.
  intros Hp. rewrite !parse_bookmark_file_eq. simpl.
  destruct (lines_read_padded _ _ Hp) as [Hpre He].
  assert (omap warning_of (lines_read lines').1 = omap warning_of (lines_read lines).1) as Hw.
  { apply omap_padded; [|exact Hpre]. intros raw' raw Hr. unfold warning_of.
    rewrite (classify_padded _ _ Hr).
    destruct Hr as (p1 & p2 & H1 & H2 & ->). by rewrite strip_padding. }
  assert (omap (record_of page_offset) (lines_read lines').1 =
          omap (record_of page_offset) (lines_read lines).1) as Hr.
  { apply omap_padded; [|exact Hpre]. intros raw' raw Hr. unfold record_of.
    by rewrite (classify_padded _ _ Hr). }
  by rewrite Hw, Hr, He.
Qed.

Lemma surrounding_whitespace_is_ignored_witness :
  Forall2 padded padded_lines ["1 Intro 5"; "oops"] /\
  parse_bookmark_file (TextFile padded_lines None) 0 =
  parse_bookmark_file (TextFile ["1 Intro 5"; "oops"] None) 0.
Proof.
  assert (Forall2 padded padded_lines ["1 Intro 5"; "oops"]) as Hp.
  { constructor; [|constructor; [|constructor]].
    - exists "  ", [newline]. repeat split; reflexivity.
    - exists [0x3000; 0x09]%N, " ". repeat split; reflexivity. }
  split; [exact Hp|].
  exact (surrounding_whitespace_is_ignored _ _ None 0 Hp).
Defined.

(** X11. The offset moves the pages and nothing else: parsing with an
    offset gives the warnings and the records of the parse with offset 0,
    each page raised by the offset. *)
Theorem offset_shifts_pages_only (f : text_file) (page_offset : Z) :
  parse_bookmark_file f page_offset =
    (fst (parse_bookmark_file f 0),
     match snd (parse_bookmark_file f 0) with
     | Ok bookmarks => Ok (map (shift_page page_offset) bookmarks)
     | Raise e => Raise e
     end).
Proof.
  rewrite !parse_bookmark_file_eq. simpl.
  destruct (lines_read (file_lines f)).2; [done|].
  destruct (file_error f); [done|]. by rewrite omap_records_shift.
Qed.

(** X12. The lines are parsed one by one, without memory, up to the
    first line on which [int] raises. When the parse of a first list of
    lines returns, each of its lines counted once, as a record, as a
    warning, or as a blank or comment line passed over in silence; and
    the result for the list followed by a second one is the first result
    followed by the second, exception included. When it raises, the
    lines that follow are not read: the result is the same with any
    second list. *)
Theorem lines_parse_independently (lines1 lines2 : list str) (page_offset : Z) :
  match parse_bookmark_file (TextFile lines1 None) page_offset with
  | (ws1, Ok bs1) =>
      (length bs1 + length ws1 + length (List.filter silent lines1) = length lines1)%nat /\
      match parse_bookmark_file (TextFile lines2 None) page_offset with
      | (ws2, Ok bs2) =>
          parse_bookmark_file (TextFile (lines1 ++ lines2) None) page_offset =
            (ws1 ++ ws2, Ok (bs1 ++ bs2))
      | (ws2, Raise e) =>
          parse_bookmark_file (TextFile (lines1 ++ lines2) None) page_offset =
            (ws1 ++ ws2, Raise e)
      end
  | (ws1, Raise e) =>
      parse_bookmark_file (TextFile (lines1 ++ lines2) None) page_offset = (ws1, Raise e)
  end.
Proof.
  rewrite !parse_bookmark_file_eq. simpl. rewrite lines_read_app.
  destruct (lines_read lines1) as [pre1 [e1|]] eqn:E1; simpl; [done|].
  apply lines_read_None in E1 as [-> Hall]. split; [by apply lines_accounted|].
  destruct (lines_read lines2) as [pre2 [e2|]]; simpl; by rewrite !omap_app.
Qed.

(** ** The outcome of a run *)

Section Outcomes.
Context {Page Writer Handle : Type}.
Variable env : environment Page Writer Handle.
Variables input_pdf output_pdf bookmark_file : str.
Variable page_offset : Z.
Implicit Types w : world Writer Handle.

(** Every run ends in one of these ways. *)
Lemma run_cases :
  let run := add_bookmarks_to_pdf env input_pdf output_pdf bookmark_file page_offset in
  (* no record, or an exception before the pages are checked *)
  (snd run = false /\ outline_calls (fst run) = [] /\ output (fst run) = Untouched) \/
  exists ws bookmarks f pages,
    parse_bookmark_file (open_text env bookmark_file) page_offset = (ws, Ok bookmarks) /\
    bookmarks <> [] /\
    create_bookmark_tree bookmarks = Ok f /\
    PdfReader env input_pdf = Ok pages /\
    let total_pages := Z.of_nat (length pages) in
    let w1 := World (ws ++ range_warnings total_pages bookmarks) [] Untouched in
    (* an exception in the copy of the pages *)
    (exists e, run = (World (stdout w1 ++ [ErrException e]) [] Untouched, false)) \/
    exists wr,
      for_each_w (copy_page env) pages (PdfWriter env) w1 = (w1, Ok wr) /\
      ((* an exception in the attachment *)
       (exists w2 e,
          for_each_w (attach env total_pages None) f wr w1 = (w2, Raise e) /\
          run = (World (stdout w1 ++ [ErrException e]) (outline_calls w2) Untouched, false)) \/
       exists w2 wr',
         for_each_w (attach env total_pages None) f wr w1 = (w2, Ok wr') /\
         stdout w2 = stdout w1 /\ output w2 = Untouched /\
         ((* the output file does not open *)
          (exists e, open_wb env output_pdf = Some e /\
             run = (World (stdout w1 ++ [ErrException e]) (outline_calls w2) Untouched, false)) \/
          (* the writing fails *)
          (exists e, open_wb env output_pdf = None /\ write env wr' = Some e /\
             run = (World (stdout w1 ++ [ErrException e]) (outline_calls w2) Truncated, false)) \/
          (* success *)
          (open_wb env output_pdf = None /\ write env wr' = None /\
           run = (World (stdout w1 ++ success_report output_pdf page_offset) (outline_calls w2) (Written wr'), true)))).
Proof.
  intros run. subst run. rewrite add_bookmarks_to_pdf_handler.
  destruct (parse_bookmark_file (open_text env bookmark_file) page_offset)
    as [ws [bookmarks|e]] eqn:Hp.
  2:{ left. by rewrite (body_parse_raise _ _ _ _ _ _ _ Hp). }
  destruct bookmarks as [|b bs].
  { left. by rewrite (body_empty _ _ _ _ _ _ Hp). }
  destruct (create_bookmark_tree (b :: bs)) as [f|e] eqn:Ht.
  2:{ left. by rewrite (body_tree_raise _ _ _ _ _ _ _ _ Hp Ht). }
  destruct (PdfReader env input_pdf) as [pages|e] eqn:Hr.
  2:{ left. by rewrite (body_reader_raise _ _ _ _ _ _ _ _ _ Hp ltac:(done) Ht Hr). }
  right. exists ws, (b :: bs), f, pages.
  split; [done|]. split; [done|]. split; [done|]. split; [done|].
  intros total_pages w1.
  rewrite (body_reached _ _ _ _ _ _ _ _ _ Hp ltac:(done) Ht Hr).
  fold total_pages. fold w1. rewrite bindM_run.
  pose proof (for_each_copy_page env pages (PdfWriter env) w1) as Hcopy.
  destruct (for_each_w (copy_page env) pages (PdfWriter env) w1) as [w1' [wr|e]];
    simpl in Hcopy; subst w1'.
  2:{ left. by exists e. }
  right. exists wr. split; [done|]. rewrite bindM_run.
  pose proof (attach_forest env total_pages None f wr w1) as (Hs & Ho & cs & Hc & _).
  destruct (for_each_w (attach env total_pages None) f wr w1) as [w2 [wr'|e]];
    simpl in Hs, Ho, Hc.
  2:{ left. exists w2, e. split; [done|]. simpl. by rewrite Hs, Ho. }
  right. exists w2, wr'. split; [done|]. split; [done|]. split; [done|].
  rewrite bindM_run, save_cases.
  destruct (open_wb env output_pdf) as [e|]; [|destruct (write env wr') as [e|]].
  - left. exists e. split; [done|]. simpl. by rewrite Hs, Ho.
  - right. left. exists e. split; [done|]. split; [done|]. simpl. by rewrite Hs.
  - right. right. split; [done|]. split; [done|].
    rewrite !bindM_run. unfold print, ret, success_report. simpl. rewrite Hs.
    destruct (page_offset =? 0); simpl; [done|]. by rewrite <- app_assoc.
Qed.

End Outcomes.

Section Handles.
Context {Page Writer Handle : Type}.
Variable env : environment Page Writer Handle.
Variable total_pages : Z.
Implicit Types w : world Writer Handle.



End Handles.



Lemma clamp_range total_pages p :
  0 <= clamp total_pages p /\
  (0 < total_pages -> clamp total_pages p < total_pages) /\
  (total_pages <= 0 -> clamp total_pages p = 0).
Proof. unfold clamp. lia. Qed.

Lemma clamp_changes total_pages b :
  0 < total_pages ->
  out_of_range total_pages b = true <-> clamp total_pages (page b) <> page b.
Proof.
  intros Hpos. unfold out_of_range, clamp.
  rewrite orb_true_iff, Z.ltb_lt, Z.geb_le. lia.
Qed.

Lemma elem_of_range_warnings total_pages bookmarks m :
  m ∈ range_warnings total_pages bookmarks <->
  exists b, b ∈ bookmarks /\ out_of_range total_pages b = true /\
            m = WarnPageOutOfRange (title b) (page b + 1) total_pages.
Proof.
  unfold range_warnings. rewrite list_elem_of_In, in_flat_map. split.
  - intros (b & Hb & Hm). exists b. rewrite list_elem_of_In. split; [done|].
    destruct (out_of_range total_pages b); [|by destruct Hm].
    destruct Hm as [<-|[]]. done.
  - intros (b & Hb & Ho & ->). exists b. rewrite <- list_elem_of_In. split; [done|].
    rewrite Ho. by left.
Qed.

Lemma elem_of_page_warning (l : list message) t p n :
  WarnPageOutOfRange t p n ∈ l <->
  WarnPageOutOfRange t p n ∈ List.filter is_page_warning l.
Proof.
  rewrite !list_elem_of_In, filter_In. split; [by intros H | by intros [H _]].
Qed.



(** X15. The output file is opened last. When a run has touched it, the
    bookmark file was parsed, the input was read, [add_outline_item] was
    called for every record in order, and [open] did not raise. A file
    left incomplete goes with [False] and the message of the exception
    as the last line printed. *)
Theorem output_opened_after_every_attachment {Page Writer Handle : Type}
    (env : environment Page Writer Handle)
    (input_pdf output_pdf bookmark_file : str) (page_offset : Z) :
  let run := add_bookmarks_to_pdf env input_pdf output_pdf bookmark_file page_offset in
  output (fst run) <> Untouched ->
  (exists ws bookmarks pages,
     parse_bookmark_file (open_text env bookmark_file) page_offset = (ws, Ok bookmarks) /\
     PdfReader env input_pdf = Ok pages /\
     map fst (outline_calls (fst run)) =
       map (fun b => (title b, clamp (Z.of_nat (length pages)) (page b))) bookmarks) /\
  open_wb env output_pdf = None /\
  (output (fst run) = Truncated ->
     snd run = false /\ exists e, last (stdout (fst run)) = Some (ErrException e)).
Proof.
  cbv zeta. intros Hout.
  pose proof (run_cases env input_pdf output_pdf bookmark_file page_offset) as Hcases.
  cbv zeta in Hcases.
  destruct Hcases as [(_ & _ & Ho) | (ws & bs & f & pages & Hp & _ & Ht & Hr & Hrest)];
    [done|].
  destruct Hrest as [[e Hrun] | (wr & _ & [(w2 & e & _ & Hrun) | (w2 & wr' & Ha & _ & _ & Hrest)])];
    try (rewrite Hrun in Hout; done).
  pose proof (attach_forest env (Z.of_nat (length pages)) None f wr
                (World (ws ++ range_warnings (Z.of_nat (length pages)) bs) [] Untouched))
    as (_ & _ & cs & Hc & _ & Heq).
  rewrite Ha in Hc, Heq. simpl in Hc, Heq. specialize (Heq wr' eq_refl).
  pose proof (create_bookmark_tree_cases bs) as Hf. rewrite Ht in Hf.
  rewrite Hf, targets_of_labels, <- Hc in Heq.
  destruct Hrest as [(e & _ & Hrun) | [(e & Hopen & _ & Hrun) | (Hopen & _ & Hrun)]];
    [by rewrite Hrun in Hout | |]; rewrite Hrun; simpl.
  - split; [by exists ws, bs, pages|]. split; [done|]. intros _. split; [done|].
    exists e. by rewrite last_snoc.
  - split; [by exists ws, bs, pages|]. done.
Qed.

Lemma output_opened_after_every_attachment_witness :
  output (fst (add_bookmarks_to_pdf
                 (test_env short_file 10 (Faults None None None None (Some (External "disk full"))))
                 "in.pdf" "out.pdf" "toc.txt" 0)) = Truncated /\
  map fst (outline_calls (fst (add_bookmarks_to_pdf
                 (test_env short_file 10 (Faults None None None None (Some (External "disk full"))))
                 "in.pdf" "out.pdf" "toc.txt" 0)))
    = [("Intro", 0); ("Part one", 9)] /\
  snd (add_bookmarks_to_pdf
         (test_env short_file 10 (Faults None None None None (Some (External "disk full"))))
         "in.pdf" "out.pdf" "toc.txt" 0) = false.
Proof.
  pose proof (output_opened_after_every_attachment
                (test_env short_file 10 (Faults None None None None (Some (External "disk full"))))
                "in.pdf" "out.pdf" "toc.txt" 0
                ltac:(vm_compute; discriminate)) as (_ & _ & Htr).
  split; [vm_compute; reflexivity|]. split; [vm_compute; reflexivity|].
  exact (proj1 (Htr ltac:(vm_compute; reflexivity))).
Defined.

(** X16. No call of [add_outline_item] passes a page outside the
    document that was read: the page is at least 0 and below the number
    of pages, and it is 0 for a document without pages. *)
Theorem attached_pages_lie_in_the_document {Page Writer Handle : Type}
    (env : environment Page Writer Handle)
    (input_pdf output_pdf bookmark_file : str) (page_offset : Z)
    (pages : list Page) (t : str) (page_num : Z) (parent : option Handle) :
  PdfReader env input_pdf = Ok pages ->
  (t, page_num, parent) ∈
    outline_calls (fst (add_bookmarks_to_pdf env input_pdf output_pdf bookmark_file page_offset)) ->
  0 <= page_num /\
  (pages <> [] -> page_num < Z.of_nat (length pages)) /\
  (pages = [] -> page_num = 0).
Proof.
  intros Hr Hin.
  pose proof (run_cases env input_pdf output_pdf bookmark_file page_offset) as Hcases.
  cbv zeta in Hcases.
  destruct Hcases as [(_ & Hc & _) | (ws & bs & f & pages' & Hp & Hne & Ht & Hr' & _)].
  { rewrite Hc in Hin. by apply elem_of_nil in Hin. }
  rewrite Hr in Hr'. injection Hr' as <-.
  destruct (run_reached env input_pdf output_pdf bookmark_file page_offset
              _ _ _ _ Hp Hne Ht Hr) as (_ & [k Hpre] & _).
  assert ((t, page_num) ∈ map (target (Z.of_nat (length pages))) (preorder_forest f)) as Htp.
  { rewrite Hpre. apply elem_of_app. left.
    change (t, page_num) with (fst (t, page_num, parent)).
    rewrite list_elem_of_In. apply in_map. by rewrite <- list_elem_of_In. }
  rewrite list_elem_of_In, in_map_iff in Htp. destruct Htp as ([t' p] & Heq & _).
  injection Heq as _ <-.
  pose proof (clamp_range (Z.of_nat (length pages)) p) as (H0 & Hlt & Hz).
  split; [done|]. split.
  - intros Hn. apply Hlt. destruct pages; [done | simpl; lia].
  - intros ->. by apply Hz.
Qed.

Lemma attached_pages_lie_in_the_document_witness :
  ("Part two", 9, Some 0%nat) ∈
    outline_calls (fst (add_bookmarks_to_pdf (simple_env toc_file 10)
                          "in.pdf" "out.pdf" "toc.txt" 0)) /\
  0 <= 9 /\ (seq 0 10 <> [] -> 9 < Z.of_nat (length (seq 0 10))) /\ (seq 0 10 = [] -> 9 = 0).
Proof.
  assert (("Part two", 9, Some 0%nat) ∈
            outline_calls (fst (add_bookmarks_to_pdf (simple_env toc_file 10)
                                  "in.pdf" "out.pdf" "toc.txt" 0))) as Hin.
  { vm_compute. apply list_elem_of_In. simpl. auto. }
  split; [exact Hin|].
  exact (attached_pages_lie_in_the_document (simple_env toc_file 10)
           "in.pdf" "out.pdf" "toc.txt" 0 (seq 0 10) "Part two" 9 (Some 0%nat)
           eq_refl Hin).
Defined.

(** X17. For a document with at least one page the advisory check and
    the clamp agree: the call for a record carries its title, and its
    page differs from the page of the record exactly when the warning
    for that record was printed. *)
Theorem warned_iff_page_changed {Page Writer Handle : Type}
    (env : environment Page Writer Handle)
    (input_pdf output_pdf bookmark_file : str) (page_offset : Z)
    (ws : list message) (bookmarks : list bookmark) (f : forest) (pages : list Page)
    (i : nat) (b : bookmark) (t : str) (page_num : Z) (parent : option Handle) :
  parse_bookmark_file (open_text env bookmark_file) page_offset = (ws, Ok bookmarks) ->
  create_bookmark_tree bookmarks = Ok f ->
  PdfReader env input_pdf = Ok pages ->
  pages <> [] ->
  let total_pages := Z.of_nat (length pages) in
  let run := add_bookmarks_to_pdf env input_pdf output_pdf bookmark_file page_offset in
  bookmarks !! i = Some b ->
  outline_calls (fst run) !! i = Some (t, page_num, parent) ->
  t = title b /\
  (page_num <> page b <->
   WarnPageOutOfRange (title b) (page b + 1) total_pages ∈ stdout (fst run)).
Proof.
  intros Hp Ht Hr Hpages total_pages run Hb Hc.
  assert (bookmarks <> []) as Hne by (by intros ->).
  assert (0 < total_pages) as Hpos.
  { unfold total_pages. destruct pages; [done | simpl; lia]. }
  destruct (run_reached env input_pdf output_pdf bookmark_file page_offset
              _ _ _ _ Hp Hne Ht Hr) as ((tail & Hout & Htail) & [k Hpre] & _).
  fold total_pages in Hout, Hpre. fold run in Hout, Hpre.
  pose proof (create_bookmark_tree_cases bookmarks) as Hf. rewrite Ht in Hf.
  rewrite Hf, targets_of_labels in Hpre.
  assert ((t, page_num) = (title b, clamp total_pages (page b))) as Heq.
  { assert (map fst (outline_calls run.1) !! i = Some (t, page_num)) as H1.
    { by rewrite list_lookup_fmap, Hc. }
    assert ((map (fun b => (title b, clamp total_pages (page b))) bookmarks) !! i
            = Some (title b, clamp total_pages (page b))) as H2.
    { by rewrite list_lookup_fmap, Hb. }
    rewrite Hpre in H2. rewrite lookup_app_l in H2; [congruence|].
    by apply lookup_lt_Some in H1. }
  injection Heq as -> ->. split; [done|].
  rewrite elem_of_page_warning, Hout, !List.filter_app.
  apply parse_bookmark_file_inv in Hp as [-> _].
  rewrite filter_malformed_warnings, filter_range_warnings, Htail, app_nil_r. simpl.
  rewrite elem_of_range_warnings, <- clamp_changes by done. split.
  - intros Ho. exists b. split; [by eapply list_elem_of_lookup_2|]. done.
  - intros (b' & _ & Ho & Hm). injection Hm as _ Hpg.
    unfold out_of_range in *. by replace (page b) with (page b') by lia.
Qed.

Lemma warned_iff_page_changed_witness :
  "Part two" = title (Bookmark 2 "Part two" 39) /\
  (9 <> page (Bookmark 2 "Part two" 39) <->
   WarnPageOutOfRange (title (Bookmark 2 "Part two" 39)) (page (Bookmark 2 "Part two" 39) + 1)
                      (Z.of_nat (length (seq 0 10))) ∈
     stdout (fst (add_bookmarks_to_pdf (simple_env toc_file 10)
                    "in.pdf" "out.pdf" "toc.txt" 0))).
Proof.
  apply (warned_iff_page_changed (simple_env toc_file 10)
           "in.pdf" "out.pdf" "toc.txt" 0 []
           [Bookmark 1 "Intro" (-1); Bookmark 2 "Part one" 1;
            Bookmark 2 "Part two" 39; Bookmark 1 "End" 8]
           [Node "Intro" (-1) (Some [Node "Part one" 1 None; Node "Part two" 39 None]);
            Node "End" 8 None]
           (seq 0 10) 2%nat (Bookmark 2 "Part two" 39) "Part two" 9 (Some 0%nat)
           ltac:(vm_compute; reflexivity) ltac:(vm_compute; reflexivity)
           ltac:(reflexivity) ltac:(discriminate)
           ltac:(reflexivity) ltac:(vm_compute; reflexivity)).
Defined.



(** ** Properties of main *)

Section MainProofs.
Context {Page Writer Handle : Type}.
Variable env : environment Page Writer Handle.
Variable path_exists : str -> bool.
Variable int_of_argument : str -> option Z.

(** The shapes of [sys.argv] by its length. *)
Lemma argv_shape (argv : list str) :
  ((length argv < 4)%nat \/ (length argv > 5)%nat) \/
  (exists prog i o b, argv = [prog; i; o; b]) \/
  (exists prog i o b a, argv = [prog; i; o; b; a]).
Proof.
  destruct argv as [|prog [|i [|o [|b [|a [|x rest]]]]]]; simpl;
    try (left; lia).
  - right. left. by exists prog, i, o, b.
  - right. right. by exists prog, i, o, b, a.
Qed.

Lemma main_usage (argv : list str) :
  (length argv < 4)%nat \/ (length argv > 5)%nat ->
  main env path_exists int_of_argument argv = Refused usage.
Proof.
  destruct argv as [|prog [|i [|o [|b [|a [|x rest]]]]]]; simpl; try done; lia.
Qed.

Lemma checked_call_cases i o b off :
  match checked_call env path_exists i o b off with
  | Refused msgs =>
      (path_exists i = false /\ msgs = [ErrInputMissing i]) \/
      (path_exists i = true /\ path_exists b = false /\ msgs = [ErrBookmarkFileMissing b])
  | Ran w r =>
      path_exists i = true /\ path_exists b = true /\
      (w, r) = add_bookmarks_to_pdf env i o b off
  end.
Proof.
  unfold checked_call. destruct (path_exists i); simpl; [|by left].
  destruct (path_exists b); simpl; [|by right].
  by destruct (add_bookmarks_to_pdf env i o b off).
Qed.

End MainProofs.

(** A run that leaves a written output file. *)
Lemma run_written {Page Writer Handle : Type} (env : environment Page Writer Handle)
    (input_pdf output_pdf bookmark_file : str) (page_offset : Z) (wr : Writer) :
  let run := add_bookmarks_to_pdf env input_pdf output_pdf bookmark_file page_offset in
  output (fst run) = Written wr ->
  exists ws bookmarks pages,
    parse_bookmark_file (open_text env bookmark_file) page_offset = (ws, Ok bookmarks) /\
    bookmarks <> [] /\
    PdfReader env input_pdf = Ok pages /\
    snd run = true /\
    stdout (fst run) =
      ws ++ range_warnings (Z.of_nat (length pages)) bookmarks ++
      success_report output_pdf page_offset /\
    map fst (outline_calls (fst run)) =
      map (fun b => (title b, clamp (Z.of_nat (length pages)) (page b))) bookmarks.
Proof.
  cbv zeta. intros Hout.
  pose proof (run_cases env input_pdf output_pdf bookmark_file page_offset) as Hcases.
  cbv zeta in Hcases.
  destruct Hcases as [(_ & _ & Ho) | (ws & bs & f & pages & Hp & Hne & Ht & Hr & Hrest)];
    [congruence|].
  destruct Hrest as [[e Hrun] | (wr0 & _ & [(w2 & e & _ & Hrun) | (w2 & wr' & Ha & _ & _ & Hrest)])];
    try (rewrite Hrun in Hout; done).
  pose proof (attach_forest env (Z.of_nat (length pages)) None f wr0
                (World (ws ++ range_warnings (Z.of_nat (length pages)) bs) [] Untouched))
    as (_ & _ & cs & Hc & _ & Heq).
  rewrite Ha in Hc, Heq. simpl in Hc, Heq. specialize (Heq wr' eq_refl).
  pose proof (create_bookmark_tree_cases bs) as Hf. rewrite Ht in Hf.
  rewrite Hf, targets_of_labels, <- Hc in Heq.
  destruct Hrest as [(e & _ & Hrun) | [(e & _ & _ & Hrun) | (_ & _ & Hrun)]];
    try (rewrite Hrun in Hout; done).
  exists ws, bs, pages. rewrite Hrun. simpl.
  split; [done|]. split; [done|]. split; [done|]. split; [done|].
  split; [by rewrite <- app_assoc | done].
Qed.

(** X20. [main] runs its checks in order and stops at the first that
    fails, with one diagnosis: the number of arguments (the usage), then
    the offset, which must be an integer, then the existence of the
    input, then that of the bookmark file. It calls
    [add_bookmarks_to_pdf] exactly when all of them pass, with the
    offset 0 when there is no fifth entry. The output path is not
    checked. *)
Theorem main_reports_the_first_failed_check {Page Writer Handle : Type}
    (env : environment Page Writer Handle)
    (path_exists : str -> bool) (int_of_argument : str -> option Z)
    (argv : list str) :
  let arguments_counted := (length argv = 4%nat \/ length argv = 5%nat) in
  let offset_read := fun page_offset =>
    (length argv = 4%nat /\ page_offset = 0) \/
    (exists argument, length argv = 5%nat /\ argv !! 4%nat = Some argument /\
                      int_of_argument argument = Some page_offset) in
  match main env path_exists int_of_argument argv with
  | Refused printed =>
      (~ arguments_counted /\ printed = usage) \/
      (exists argument,
         length argv = 5%nat /\ argv !! 4%nat = Some argument /\
         int_of_argument argument = None /\ printed = [ErrOffsetNotInteger argument]) \/
      (exists page_offset input_pdf,
         arguments_counted /\ offset_read page_offset /\
         argv !! 1%nat = Some input_pdf /\ path_exists input_pdf = false /\
         printed = [ErrInputMissing input_pdf]) \/
      (exists page_offset input_pdf bookmark_file,
         arguments_counted /\ offset_read page_offset /\
         argv !! 1%nat = Some input_pdf /\ path_exists input_pdf = true /\
         argv !! 3%nat = Some bookmark_file /\ path_exists bookmark_file = false /\
         printed = [ErrBookmarkFileMissing bookmark_file])
  | Ran w returned =>
      exists page_offset input_pdf output_pdf bookmark_file,
        arguments_counted /\ offset_read page_offset /\
        argv !! 1%nat = Some input_pdf /\ path_exists input_pdf = true /\
        argv !! 2%nat = Some output_pdf /\
        argv !! 3%nat = Some bookmark_file /\ path_exists bookmark_file = true /\
        (w, returned) =
          add_bookmarks_to_pdf env input_pdf output_pdf bookmark_file page_offset
  end.
Proof.
  intros arguments_counted offset_read. subst arguments_counted offset_read.
  destruct (argv_shape argv) as [Hlen | [(prog & i & o & b & ->) | (prog & i & o & b & a & ->)]].
  - rewrite (main_usage env path_exists int_of_argument argv Hlen).
    left. split; [lia | done].
  - simpl main.
    pose proof (checked_call_cases env path_exists i o b 0) as Hc.
    destruct (checked_call env path_exists i o b 0) as [printed | w returned].
    + right. right. destruct Hc as [(Hi & ->) | (Hi & Hb & ->)].
      * left. exists 0, i. repeat split; try done; by left.
      * right. exists 0, i, b. repeat split; try done; by left.
    + destruct Hc as (Hi & Hb & Hrun). exists 0, i, o, b.
      repeat split; try done; by left.
  - simpl main. destruct (int_of_argument a) as [off|] eqn:Ha.
    + pose proof (checked_call_cases env path_exists i o b off) as Hc.
      assert ((length [prog; i; o; b; a] = 4%nat /\ off = 0) \/
              (exists argument, length [prog; i; o; b; a] = 5%nat /\
                                [prog; i; o; b; a] !! 4%nat = Some argument /\
                                int_of_argument argument = Some off)) as Hoff
        by (right; by exists a).
      destruct (checked_call env path_exists i o b off) as [printed | w returned].
      * right. right. destruct Hc as [(Hi & ->) | (Hi & Hb & ->)].
        -- left. exists off, i. repeat split; try done; by right.
        -- right. exists off, i, b. repeat split; try done; by right.
      * destruct Hc as (Hi & Hb & Hrun). exists off, i, o, b.
        repeat split; try done; by right.
    + right. left. exists a. by repeat split.
Qed.

(** The four refusals, in the order of the checks: each input fails the
    checks that come after the one reported as well. *)
Lemma main_reports_the_first_failed_check_witness :
  main (simple_env toc_file 10) two_files digits_only
       ["tool"; "missing.pdf"; "out.pdf"; "missing.txt"; "four"; "more"] = Refused usage /\
  main (simple_env toc_file 10) two_files digits_only
       ["tool"; "missing.pdf"; "out.pdf"; "missing.txt"; "four"]
    = Refused [ErrOffsetNotInteger "four"] /\
  main (simple_env toc_file 10) two_files digits_only
       ["tool"; "missing.pdf"; "out.pdf"; "missing.txt"; "4"]
    = Refused [ErrInputMissing "missing.pdf"] /\
  main (simple_env toc_file 10) two_files digits_only
       ["tool"; "in.pdf"; "out.pdf"; "missing.txt"]
    = Refused [ErrBookmarkFileMissing "missing.txt"] /\
  ((~ (length ["tool"; "missing.pdf"; "out.pdf"; "missing.txt"; "four"; "more"] = 4%nat \/
       length ["tool"; "missing.pdf"; "out.pdf"; "missing.txt"; "four"; "more"] = 5%nat) /\
    usage = usage) \/
   (exists argument,
      length ["tool"; "missing.pdf"; "out.pdf"; "missing.txt"; "four"; "more"] = 5%nat /\
      ["tool"; "missing.pdf"; "out.pdf"; "missing.txt"; "four"; "more"] !! 4%nat
        = Some argument /\
      digits_only argument = None /\ usage = [ErrOffsetNotInteger argument]) \/
   (exists (page_offset : Z) input_pdf,
      (length ["tool"; "missing.pdf"; "out.pdf"; "missing.txt"; "four"; "more"] = 4%nat \/
       length ["tool"; "missing.pdf"; "out.pdf"; "missing.txt"; "four"; "more"] = 5%nat) /\
      ((length ["tool"; "missing.pdf"; "out.pdf"; "missing.txt"; "four"; "more"] = 4%nat /\
        page_offset = 0) \/
       (exists argument,
          length ["tool"; "missing.pdf"; "out.pdf"; "missing.txt"; "four"; "more"] = 5%nat /\
          ["tool"; "missing.pdf"; "out.pdf"; "missing.txt"; "four"; "more"] !! 4%nat
            = Some argument /\
          digits_only argument = Some page_offset)) /\
      ["tool"; "missing.pdf"; "out.pdf"; "missing.txt"; "four"; "more"] !! 1%nat
        = Some input_pdf /\
      two_files input_pdf = false /\ usage = [ErrInputMissing input_pdf]) \/
   (exists (page_offset : Z) input_pdf bookmark_file,
      (length ["tool"; "missing.pdf"; "out.pdf"; "missing.txt"; "four"; "more"] = 4%nat \/
       length ["tool"; "missing.pdf"; "out.pdf"; "missing.txt"; "four"; "more"] = 5%nat) /\
      ((length ["tool"; "missing.pdf"; "out.pdf"; "missing.txt"; "four"; "more"] = 4%nat /\
        page_offset = 0) \/
       (exists argument,
          length ["tool"; "missing.pdf"; "out.pdf"; "missing.txt"; "four"; "more"] = 5%nat /\
          ["tool"; "missing.pdf"; "out.pdf"; "missing.txt"; "four"; "more"] !! 4%nat
            = Some argument /\
          digits_only argument = Some page_offset)) /\
      ["tool"; "missing.pdf"; "out.pdf"; "missing.txt"; "four"; "more"] !! 1%nat
        = Some input_pdf /\
      two_files input_pdf = true /\
      ["tool"; "missing.pdf"; "out.pdf"; "missing.txt"; "four"; "more"] !! 3%nat
        = Some bookmark_file /\
      two_files bookmark_file = false /\
      usage = [ErrBookmarkFileMissing bookmark_file])).
Proof.
  split; [reflexivity|]. split; [reflexivity|]. split; [reflexivity|].
  split; [reflexivity|].
  exact (main_reports_the_first_failed_check (simple_env toc_file 10) two_files digits_only
           ["tool"; "missing.pdf"; "out.pdf"; "missing.txt"; "four"; "more"]).
Defined.

(** X21. When a run of [main] leaves a written output file, every
    check has passed: [sys.argv] had 4 or 5 entries, the offset was 0 or
    the integer of the fifth, the input and the bookmark file existed,
    the parse gave records, the call returned [True], and
    [add_outline_item] was called for every record with its clamped
    page. *)
Theorem main_writes_after_every_check {Page Writer Handle : Type}
    (env : environment Page Writer Handle)
    (path_exists : str -> bool) (int_of_argument : str -> option Z)
    (argv : list str) (w : world Writer Handle) (returned : bool) (wr : Writer) :
  main env path_exists int_of_argument argv = Ran w returned ->
  output w = Written wr ->
  exists input_pdf output_pdf bookmark_file page_offset ws bookmarks pages,
    argv !! 1%nat = Some input_pdf /\ argv !! 2%nat = Some output_pdf /\
    argv !! 3%nat = Some bookmark_file /\
    ((length argv = 4%nat /\ page_offset = 0) \/
     (exists argument, length argv = 5%nat /\ argv !! 4%nat = Some argument /\
                       int_of_argument argument = Some page_offset)) /\
    path_exists input_pdf = true /\ path_exists bookmark_file = true /\
    parse_bookmark_file (open_text env bookmark_file) page_offset = (ws, Ok bookmarks) /\
    bookmarks <> [] /\
    PdfReader env input_pdf = Ok pages /\
    returned = true /\
    stdout w =
      ws ++ range_warnings (Z.of_nat (length pages)) bookmarks ++
      success_report output_pdf page_offset /\
    map fst (outline_calls w) =
      map (fun b => (title b, clamp (Z.of_nat (length pages)) (page b))) bookmarks.
Proof.
  intros Hmain Hout.
  assert (exists prog i o b off,
            ((argv = [prog; i; o; b] /\ off = 0) \/
             (exists a, argv = [prog; i; o; b; a] /\ int_of_argument a = Some off)) /\
            checked_call env path_exists i o b off = Ran w returned) as Hshape.
  { destruct (argv_shape argv)
      as [Hlen | [(prog & i & o & b & ->) | (prog & i & o & b & a & ->)]].
    - by rewrite (main_usage env path_exists int_of_argument argv Hlen) in Hmain.
    - exists prog, i, o, b, 0. split; [by left | done].
    - simpl in Hmain. destruct (int_of_argument a) as [off|] eqn:Ha; [|done].
      exists prog, i, o, b, off. split; [right; by exists a | done]. }
  destruct Hshape as (prog & i & o & b & off & Hargv & Hcall).
  pose proof (checked_call_cases env path_exists i o b off) as Hc. rewrite Hcall in Hc.
  destruct Hc as (Hi & Hb & Hrun).
  pose proof (run_written env i o b off wr) as Hw. cbv zeta in Hw.
  rewrite <- Hrun in Hw. simpl in Hw.
  destruct (Hw Hout) as (ws & bs & pages & Hp & Hne & Hr & -> & Hs & Hcalls).
  exists i, o, b, off, ws, bs, pages.
  destruct Hargv as [[-> ->] | (a & -> & Ha)].
  - repeat split; try done. by left.
  - repeat split; try done. right. by exists a.
Qed.

Lemma main_writes_after_every_check_witness :
  main (simple_env toc_file 10) two_files digits_only
       ["tool"; "in.pdf"; "out.pdf"; "toc.txt"; "4"] =
    Ran (World [WarnPageOutOfRange "Part two" 44 10; WarnPageOutOfRange "End" 13 10;
                Success "out.pdf"; OffsetApplied 4]
               [("Intro", 3, None); ("Part one", 5, Some 0%nat);
                ("Part two", 9, Some 0%nat); ("End", 9, None)]
               (Written ([0; 1; 2; 3; 4; 5; 6; 7; 8; 9]%nat,
                         [("Intro", 3, None); ("Part one", 5, Some 0%nat);
                          ("Part two", 9, Some 0%nat); ("End", 9, None)])))
        true /\
  exists input_pdf output_pdf bookmark_file page_offset ws bookmarks pages,
    ["tool"; "in.pdf"; "out.pdf"; "toc.txt"; "4"] !! 1%nat = Some input_pdf /\
    ["tool"; "in.pdf"; "out.pdf"; "toc.txt"; "4"] !! 2%nat = Some output_pdf /\
    ["tool"; "in.pdf"; "out.pdf"; "toc.txt"; "4"] !! 3%nat = Some bookmark_file /\
    ((length ["tool"; "in.pdf"; "out.pdf"; "toc.txt"; "4"] = 4%nat /\ page_offset = 0) \/
     (exists argument,
        length ["tool"; "in.pdf"; "out.pdf"; "toc.txt"; "4"] = 5%nat /\
        ["tool"; "in.pdf"; "out.pdf"; "toc.txt"; "4"] !! 4%nat = Some argument /\
        digits_only argument = Some page_offset)) /\
    two_files input_pdf = true /\ two_files bookmark_file = true /\
    parse_bookmark_file (open_text (simple_env toc_file 10) bookmark_file) page_offset
      = (ws, Ok bookmarks) /\
    bookmarks <> [] /\
    PdfReader (simple_env toc_file 10) input_pdf = Ok pages /\
    true = true /\
    [WarnPageOutOfRange "Part two" 44 10; WarnPageOutOfRange "End" 13 10;
     Success "out.pdf"; OffsetApplied 4] =
      ws ++ range_warnings (Z.of_nat (length pages)) bookmarks ++
      success_report output_pdf page_offset /\
    map fst [("Intro", 3, None); ("Part one", 5, Some 0%nat);
             ("Part two", 9, Some 0%nat); ("End", 9, @None nat)] =
      map (fun b => (title b, clamp (Z.of_nat (length pages)) (page b))) bookmarks.
Proof.
  assert (main (simple_env toc_file 10) two_files digits_only
            ["tool"; "in.pdf"; "out.pdf"; "toc.txt"; "4"] =
          Ran (World [WarnPageOutOfRange "Part two" 44 10; WarnPageOutOfRange "End" 13 10;
                      Success "out.pdf"; OffsetApplied 4]
                     [("Intro", 3, None); ("Part one", 5, Some 0%nat);
                      ("Part two", 9, Some 0%nat); ("End", 9, None)]
                     (Written ([0; 1; 2; 3; 4; 5; 6; 7; 8; 9]%nat,
                               [("Intro", 3, None); ("Part one", 5, Some 0%nat);
                                ("Part two", 9, Some 0%nat); ("End", 9, None)])))
              true) as Hmain by (vm_compute; reflexivity).
  split; [exact Hmain|].
  exact (main_writes_after_every_check (simple_env toc_file 10) two_files digits_only
           _ _ _ _ Hmain eq_refl).
Defined.

Lemma zip_shifted_labels page_offset bs : forall ds : list nat,
  zip (map label (map (shift_page page_offset) bs)) ds =
  map (shift_depth page_offset) (zip (map label bs) ds).
Proof.
  induction bs as [|b bs IH]; intros [|d ds]; simpl; try done.
  by rewrite IH.
Qed.

(** X22. The offset has no part in the outline. A file parsed with an
    offset gives the warnings and the levels of the parse with offset 0;
    [create_bookmark_tree] raises for the one exactly when it raises for
    the other, and otherwise the nodes lie at the same depths, with
    their pages moved by the offset. *)
Theorem offset_keeps_the_outline (f : text_file) (page_offset : Z)
    (ws : list message) (bookmarks : list bookmark) :
  parse_bookmark_file f 0 = (ws, Ok bookmarks) ->
  exists shifted,
    parse_bookmark_file f page_offset = (ws, Ok shifted) /\
    map level shifted = map level bookmarks /\
    match create_bookmark_tree bookmarks with
    | Ok t =>
        exists t', create_bookmark_tree shifted = Ok t' /\
                   forest_depths 0 t' = map (shift_depth page_offset) (forest_depths 0 t)
    | Raise _ => exists e, create_bookmark_tree shifted = Raise e
    end.
Proof.
  intros Hp. exists (map (shift_page page_offset) bookmarks).
  assert (map level (map (shift_page page_offset) bookmarks) = map level bookmarks) as Hlv.
  { rewrite map_map. by apply map_ext. }
  split; [|split; [done|]].
  - by rewrite parse_bookmark_file_shift, Hp.
  - pose proof (create_bookmark_tree_plan bookmarks) as H.
    pose proof (create_bookmark_tree_plan (map (shift_page page_offset) bookmarks)) as H'.
    rewrite Hlv in H'.
    destruct (node_depths (map level bookmarks)) as [ds|].
    + destruct H as (t & -> & Hd & _). destruct H' as (t' & Ht' & Hd' & _).
      exists t'. split; [done|]. by rewrite Hd', Hd, zip_shifted_labels.
    + destruct H as [e ->]. done.
Qed.

Lemma offset_keeps_the_outline_witness :
  parse_bookmark_file toc_file 0 =
    ([], Ok [Bookmark 1 "Intro" (-1); Bookmark 2 "Part one" 1;
             Bookmark 2 "Part two" 39; Bookmark 1 "End" 8]) /\
  exists shifted,
    parse_bookmark_file toc_file 4 = ([], Ok shifted) /\
    map level shifted =
      map level [Bookmark 1 "Intro" (-1); Bookmark 2 "Part one" 1;
                 Bookmark 2 "Part two" 39; Bookmark 1 "End" 8] /\
    match create_bookmark_tree [Bookmark 1 "Intro" (-1); Bookmark 2 "Part one" 1;
                                Bookmark 2 "Part two" 39; Bookmark 1 "End" 8] with
    | Ok t =>
        exists t', create_bookmark_tree shifted = Ok t' /\
                   forest_depths 0 t' = map (shift_depth 4) (forest_depths 0 t)
    | Raise _ => exists e, create_bookmark_tree shifted = Raise e
    end.
Proof.
  assert (parse_bookmark_file toc_file 0 =
            ([], Ok [Bookmark 1 "Intro" (-1); Bookmark 2 "Part one" 1;
                     Bookmark 2 "Part two" 39; Bookmark 1 "End" 8])) as Hp
    by (vm_compute; reflexivity).
  split; [exact Hp|].
  exact (offset_keeps_the_outline toc_file 4 _ _ Hp).
Defined.

